(** * DataDistMonitoring: the metric-aggregation pipeline of DataDistribution

    A shallow embedding of [src/common/monitoring/DataDistMonitoring.h]:
    the rate-metric record [DataDistRateMetric::RateVals], the pipeline
    object [DataDistMonitoring] (push guards, setters, the window step
    derived by [set_interval], the window rounder [roundTimeNow]) and the
    static facade [DataDistMonitor].

    Numbers are modelled as the code has them:
    - [double] is the kernel's binary64 [float] (IEEE 754, round to nearest
      even), so that every definition evaluates exactly as the compiled
      program does on the same input;
    - [unsigned] and [std::uint32_t] are integers in [0, 2^32) with the
      wrap-around written out where the code can reach it;
    - [std::chrono] time points and durations are integer tick counts
      ([system_clock] counts nanoseconds, as in libstdc++). *)

From stdpp Require Import gmap strings list fin_maps.
From Stdlib Require Import ZArith QArith Zpower Floats Uint63 Permutation Lia.

Set Default Proof Using "Type".

(** ** C++ [double] *)

Module Double.

(** [std::numeric_limits<double>::max()]: the largest finite double. *)
Definition DBL_MAX : float := 0x1.fffffffffffffp+1023%float.

(** [std::numeric_limits<double>::min()]: the smallest positive normal
    double, 2^-1022 (not the most negative one, which is [lowest()]). *)
Definition DBL_MIN : float := 0x1p-1022%float.

(** [std::numeric_limits<float>::epsilon()], 2^-23, as a double. *)
Definition FLT_EPSILON : float := 0x1p-23%float.

(** [std::min(a, b)] is [(b < a) ? b : a]. *)
Definition std_min (a b : float) : float :=
  if PrimFloat.ltb b a then b else a.

(** [std::max(a, b)] is [(a < b) ? b : a]. *)
Definition std_max (a b : float) : float :=
  if PrimFloat.ltb a b then b else a.

(** Conversion of an integer to [double] (exact below 2^53, which covers
    every use in this file). *)
Definition of_Z (z : Z) : float :=
  if (z <? 0)%Z
  then PrimFloat.opp (PrimFloat.of_uint63 (Uint63.of_Z (- z)))
  else PrimFloat.of_uint63 (Uint63.of_Z z).

(** [std::floor]: the largest integral double not above the argument.
    A finite double is [±m·2^e]; with [e >= 0] it is already integral. *)
Definition floor (d : float) : float :=
  match Prim2SF d with
  | S754_finite s m e =>
      if (e <? 0)%Z then
        of_Z (if s then - ((Z.pos m + 2 ^ (- e) - 1) / 2 ^ (- e))
              else Z.pos m / 2 ^ (- e))%Z
      else d
  | _ => d
  end.

(** [std::round]: nearest integral double, halfway cases away from
    zero; the sign of the argument is kept. *)
Definition round (d : float) : float :=
  match Prim2SF d with
  | S754_finite s m e =>
      if (e <? 0)%Z then
        let q := of_Z ((2 * Z.pos m + 2 ^ (- e)) / 2 ^ (1 - e))%Z in
        if s then PrimFloat.opp q else q
      else d
  | _ => d
  end.

(** The integer part of a double (truncation toward zero); [None] for
    an infinity or a NaN. *)
Definition trunc (d : float) : option Z :=
  match Prim2SF d with
  | S754_zero _ => Some 0%Z
  | S754_finite s m e =>
      let a := (if e <? 0 then Z.pos m / 2 ^ (- e) else Z.pos m * 2 ^ e)%Z in
      Some (if s then (- a)%Z else a)
  | _ => None
  end.

(** The conversion [double -> unsigned] is defined by C++ exactly when
    the truncated value fits 32 bits. *)
Definition unsigned_representable (d : float) : bool :=
  match trunc d with
  | Some z => (0 <=? z)%Z && (z <? 2 ^ 32)%Z
  | None => false
  end.

(** [(unsigned) d]. Outside [unsigned_representable] the C++ conversion
    is undefined; the value given here for those arguments is a
    placeholder and every statement that depends on a conversion carries
    [unsigned_representable] as a hypothesis or evaluates it. *)
Definition to_unsigned (d : float) : Z :=
  match trunc d with
  | Some z => (z mod 2 ^ 32)%Z
  | None => 0%Z
  end.

End Double.

(** ** Rate-metric records *)

Module DataDistRateMetric.

(** [struct RateVals], with its default member initialisers. *)
Record RateVals : Type := mkRateVals {
  mMin : float;
  mMax : float;
  mMeanAcc : float;
  mCount : float
}.

Definition RateVals_init : RateVals :=
  {| mMin := Double.DBL_MAX;
     mMax := Double.DBL_MIN;
     mMeanAcc := 0%float;
     mCount := 0%float |}.

(** Modelled from the spec: the fold of one sample into a record, which
    [RateMetricCollectionThread] performs in DataDistMonitoring.cxx (not
    among the sources). Spec 4.3: [min = minimum(min, v)];
    [max = maximum(max, v)]; [meanAccumulator += v]; [count += 1]. *)
Definition fold_sample (r : RateVals) (v : float) : RateVals :=
  {| mMin := Double.std_min (mMin r) v;
     mMax := Double.std_max (mMax r) v;
     mMeanAcc := (mMeanAcc r + v)%float;
     mCount := (mCount r + 1)%float |}.

Definition fold_samples (r : RateVals) (vs : list float) : RateVals :=
  fold_left fold_sample vs r.

(** Modelled from the spec: "the exposed mean for reporting is
    meanAccumulator / count". *)
Definition mean (r : RateVals) : float :=
  (mMeanAcc r / mCount r)%float.

(** [struct DataDistRateMetric]: [std::map<std::string, RateVals>]. *)
Record t : Type := mk { mKeyValues : gmap string RateVals }.

Definition empty : t := {| mKeyValues := ∅ |}.

(** [mKeyValues[key]]: [operator[]] default-constructs a missing entry. *)
Definition at_key (m : t) (key : string) : RateVals :=
  default RateVals_init (mKeyValues m !! key).

End DataDistRateMetric.

Import DataDistRateMetric.

(** A queued sample: [std::tuple<std::string, std::string, double>]. *)
Definition Sample : Type := string * string * float.

(** [mRateMetricMap]: [std::map<std::string, DataDistRateMetric>]. *)
Abbreviation RateMetricMap := (gmap string DataDistRateMetric.t).

(** Modelled from the spec: one iteration of [RateMetricCollectionThread]
    (DataDistMonitoring.cxx, not among the sources): the drained sample is
    folded into [mRateMetricMap[name].mKeyValues[key]]. *)
Definition collect_rate (m : RateMetricMap) (s : Sample) : RateMetricMap :=
  let '(name, key, v) := s in
  let metric := default DataDistRateMetric.empty (m !! name) in
  <[name := {| mKeyValues :=
                 <[key := fold_sample (at_key metric key) v]> (mKeyValues metric) |}]> m.

Definition collect_rates (m : RateMetricMap) (ss : list Sample) : RateMetricMap :=
  fold_left collect_rate ss m.

(** The values pushed under [(name, key)], in arrival order. *)
Definition values_of (name key : string) (ss : list Sample) : list float :=
  omap (fun s : Sample =>
          let '(n, k, v) := s in
          if decide (n = name /\ k = key) then Some v else None) ss.

(** ** External collaborators *)

(** The backend [o2::monitoring::Monitoring] is an external library. The
    pipeline only forwards calls to it, so it is modelled by the calls it
    has received, oldest first. *)
Inductive O2Call : Type :=
  | AddGlobalTag (name value : string)
  | SetRunNumber (run : Z)
  | EnableProcessMonitoring (interval : option Z).

Definition O2Monitoring : Type := list O2Call.

(** Modelled from the spec: [ConcurrentFifo::push_capacity] of
    ConcurrentQueue.h (not among the sources). Spec 4.1: a push onto a
    queue that has reached its capacity drops the incoming sample
    ("drop-newest-on-full"), and no error reaches the caller. *)
Definition push_capacity {A : Type} (cap : nat) (x : A) (q : list A) : list A :=
  if (length q <? cap)%nat then q ++ [x] else q.

(** ** The pipeline object *)

Module DataDistMonitoring.

(** The data members the modelled methods read or write. The mutex, the
    three threads, [mRunning] and the two metric maps play no part in
    them. *)
Record t : Type := mk {
  mMetricsQueue : list Sample;
  mRateMetricsQueue : list Sample;
  mActive : bool;
  mO2Monitoring : option O2Monitoring;   (* a [unique_ptr]: [None] is null *)
  mMonitoringIntervalMs : Z;             (* [unsigned] *)
  mMonitoringIntervalStepUs : Z;         (* [std::uint64_t] *)
  mLogMetric : bool
}.

(** [if (mLogMetric || mO2Monitoring)]. *)
Definition enabled (m : t) : bool :=
  mLogMetric m || bool_decide (is_Some (mO2Monitoring m)).

Definition push (pName pKey : string) (pVal : float) (m : t) : t :=
  if enabled m then
    mk (push_capacity 4096 (pName, pKey, pVal) (mMetricsQueue m))
       (mRateMetricsQueue m)
       (mActive m) (mO2Monitoring m)
       (mMonitoringIntervalMs m) (mMonitoringIntervalStepUs m) (mLogMetric m)
  else m.

Definition push_rate (pName pKey : string) (pVal : float) (m : t) : t :=
  if enabled m then
    mk (mMetricsQueue m)
       (push_capacity 4096 (pName, pKey, pVal) (mRateMetricsQueue m))
       (mActive m) (mO2Monitoring m)
       (mMonitoringIntervalMs m) (mMonitoringIntervalStepUs m) (mLogMetric m)
  else m.

(** A call forwarded to the backend when there is one. *)
Definition forward (c : O2Call) (m : t) : t :=
  match mO2Monitoring m with
  | Some calls =>
      mk (mMetricsQueue m) (mRateMetricsQueue m)
         (mActive m) (Some (calls ++ [c]))
         (mMonitoringIntervalMs m) (mMonitoringIntervalStepUs m) (mLogMetric m)
  | None => m
  end.

Definition set_partition_id (pPartId : string) (m : t) : t :=
  forward (AddGlobalTag "partition" pPartId) m.

Definition set_run_number (pRunNum : Z) (m : t) : t :=
  forward (SetRunNumber pRunNum) m.

Definition enable_process_monitoring (pIntervalSec : option Z) (m : t) : t :=
  forward (EnableProcessMonitoring pIntervalSec) m.

Definition set_active (pActive : bool) (m : t) : t :=
  mk (mMetricsQueue m) (mRateMetricsQueue m)
     pActive (mO2Monitoring m)
     (mMonitoringIntervalMs m) (mMonitoringIntervalStepUs m) (mLogMetric m).

(** [(unsigned)(500U * std::floor(mMonitoringIntervalMs / 2000.0))]:
    the division, the floor and the product are taken in [double]. *)
Definition interval_steps (pIntMs : Z) : Z :=
  Double.to_unsigned (500 * Double.floor (Double.of_Z pIntMs / 2000))%float.

(** [std::max(250U, ...) * 1000U]: both operands are [unsigned], so the
    product is reduced modulo 2^32 before it is stored in the 64-bit
    member. *)
Definition step_us (pIntMs : Z) : Z :=
  ((Z.max 250 (interval_steps pIntMs) * 1000) mod 2 ^ 32)%Z.

Definition set_interval (pIntMs : Z) (m : t) : t :=
  mk (mMetricsQueue m) (mRateMetricsQueue m)
     (mActive m) (mO2Monitoring m)
     pIntMs (step_us pIntMs) (mLogMetric m).

Definition set_log (pLog : bool) (m : t) : t :=
  mk (mMetricsQueue m) (mRateMetricsQueue m)
     (mActive m) (mO2Monitoring m)
     (mMonitoringIntervalMs m) (mMonitoringIntervalStepUs m) pLog.

(** A [std::chrono::microseconds] count as [system_clock] ticks
    (nanoseconds). *)
Definition us (n : Z) : Z := (n * 1000)%Z.

(** [std::chrono::time_point_cast<std::chrono::microseconds>], stored
    back into a [system_clock::time_point]: the tick count loses its
    sub-microsecond part (integer division truncates toward zero). *)
Definition time_point_cast_us (t_ns : Z) : Z := us (Z.quot t_ns 1000).

(** [roundTimeNow]. Durations of mixed period are first brought to the
    finer one, so the sum and the quotient are taken on nanosecond
    counts; [/] on counts is C++ integer division ([Z.quot]). The
    counts are 64-bit signed and C++ leaves their overflow undefined, so
    no wrap-around is modelled: see [intermediates] for the values that
    have to fit. *)
Definition roundTimeNow (m : t) (pNowMs : Z) : Z :=
  let pNowMs := time_point_cast_us pNowMs in
  let lNowSteps :=
    Z.quot (pNowMs + us (mMonitoringIntervalStepUs m - 1))
           (us (mMonitoringIntervalStepUs m)) in
  let lNowRounded := us (lNowSteps * mMonitoringIntervalStepUs m) in
  lNowRounded.

(** Every signed 64-bit value [roundTimeNow] computes on the way. *)
Definition intermediates (m : t) (pNowMs : Z) : list Z :=
  let step := mMonitoringIntervalStepUs m in
  let t := time_point_cast_us pNowMs in
  let steps := Z.quot (t + us (step - 1)) (us step) in
  [ t; us (step - 1); (t + us (step - 1))%Z; us step; steps;
    (steps * step)%Z; us (steps * step) ].

Definition int64 (z : Z) : Prop := (- 2 ^ 63 <= z < 2 ^ 63)%Z.

(** The object as its default member initialisers leave it, for a given
    backend: inactive, not logging, empty queues, a 1000 ms interval and
    a 500000 us step. *)
Definition init (backend : option O2Monitoring) : t :=
  mk [] [] false backend 1000 500000 false.

End DataDistMonitoring.

(** ** The process-wide facade *)

Module DataDistMonitor.

(** [static std::unique_ptr<DataDistMonitoring> mDataDistMon]. *)
Definition t : Type := option DataDistMonitoring.t.

(** [if (mDataDistMon) { ... }]. *)
Definition with_mon (f : DataDistMonitoring.t -> DataDistMonitoring.t) (s : t) : t :=
  match s with
  | Some m => Some (f m)
  | None => None
  end.

(** [std::max(pRunNum, uint32_t(1))]. *)
Definition enable_datadist (pRunNum : Z) (pPartId : string) : t -> t :=
  with_mon (fun m =>
    DataDistMonitoring.set_active true
      (DataDistMonitoring.set_partition_id pPartId
         (DataDistMonitoring.set_run_number (Z.max pRunNum 1) m))).

(** The argument of the inner [set_interval]:
    [std::round(double(pInterval) * 1000.0)] converted to [unsigned]. *)
Definition interval_ms (pInterval : float) : float :=
  Double.round (pInterval * 1000)%float.

(** [pInterval] is a C++ [float]; every [float] value is a [double]
    value, [double(pInterval)] is exact and the comparison with
    [epsilon()] gives the same answer on either type. *)
Definition set_interval (pInterval : float) : t -> t :=
  with_mon (fun m =>
    if PrimFloat.leb pInterval Double.FLT_EPSILON then
      DataDistMonitoring.set_active false m
    else
      DataDistMonitoring.set_interval (Double.to_unsigned (interval_ms pInterval)) m).

Definition enable_process_monitoring (pIntervalSec : option Z) : t -> t :=
  with_mon (DataDistMonitoring.enable_process_monitoring pIntervalSec).

Definition set_log (pLog : bool) : t -> t :=
  with_mon (DataDistMonitoring.set_log pLog).

End DataDistMonitor.

(** ** Reference notions the statements compare the code with *)

(** The ceiling of [a / b] for [b > 0], defined from floor division. *)
Definition ceilDiv (a b : Z) : Z := (- ((- a) / b))%Z.

(** Spec 4.3: [S = max(250ms, 500ms * floor(I / 2000ms))], in
    microseconds. *)
Definition spec_step_us (I : Z) : Z := (Z.max 250 (500 * (I / 2000)) * 1000)%Z.

(** Milliseconds as [system_clock] ticks. *)
Definition ms (n : Z) : Z := (n * 1000000)%Z.

(** The order of doubles: [<], [<=] and [==] are specified by
    [SFcompare], which compares sign, exponent and mantissa
    lexicographically. [key] makes that order explicit, so that linear
    arithmetic decides it. *)
Definition key (x : spec_float) : Z * Z * Z :=
  match x with
  | S754_nan => (0, 0, 0)
  | S754_zero _ => (0, 0, 0)
  | S754_infinity s => (if s then -2 else 2, 0, 0)
  | S754_finite s m e =>
      if s then (-1, - e, - Z.pos m) else (1, e, Z.pos m)
  end%Z.

Definition lex_lt (a b : Z * Z * Z) : Prop :=
  (a.1.1 < b.1.1 \/
   (a.1.1 = b.1.1 /\ (a.1.2 < b.1.2 \/ (a.1.2 = b.1.2 /\ a.2 < b.2))))%Z.

(** A double that is not a NaN. *)
Definition is_num (x : float) : Prop := Prim2SF x <> S754_nan.

Definition fkey (x : float) : Z * Z * Z := key (Prim2SF x).

(** [x <= y] on doubles. *)
Definition double_le (x y : float) : Prop := PrimFloat.leb x y = true.

(** The record the rate map holds for [(name, key)], if any. *)
Definition rate_record (m : RateMetricMap) (name key : string) : option RateVals :=
  m !! name ≫= fun metric => mKeyValues metric !! key.

(** A producer call on the pipeline: [DDMON] or [DDMON_RATE]. *)
Inductive Producer : Type :=
  | Push (name key : string) (v : float)
  | PushRate (name key : string) (v : float).

Definition produce (m : DataDistMonitoring.t) (c : Producer) : DataDistMonitoring.t :=
  match c with
  | Push name key v => DataDistMonitoring.push name key v m
  | PushRate name key v => DataDistMonitoring.push_rate name key v m
  end.

(** A burst of producer calls with no drain in between. *)
Definition produce_all (m : DataDistMonitoring.t) (cs : list Producer) : DataDistMonitoring.t :=
  fold_left produce cs m.

(** Both queues hold at most 4096 samples. *)
Definition queues_bounded (m : DataDistMonitoring.t) : Prop :=
  (length (DataDistMonitoring.mMetricsQueue m) <= 4096)%nat /\
  (length (DataDistMonitoring.mRateMetricsQueue m) <= 4096)%nat.

(** Brings the keys of all doubles in sight down to integer triples. *)
Ltac order_keys :=
  unfold lex_lt in *;
  repeat match goal with
    | |- context [fkey ?x] =>
        let a := fresh "a" in let b := fresh "b" in let c := fresh "c" in
        destruct (fkey x) as [[a b] c]
    | H : context [fkey ?x] |- _ =>
        let a := fresh "a" in let b := fresh "b" in let c := fresh "c" in
        destruct (fkey x) as [[a b] c]
    end;
  cbn in *;
  repeat match goal with
    | H : _ /\ _ |- _ => destruct H
    | H : (_, _) = (_, _) |- _ => injection H as ? ? ?; subst
    end.

(** The producer macros [DDMON] and [DDMON_RATE]: a push on the
    pipeline of the facade when there is one. *)
Definition DDMON (name key : string) (val : float) : DataDistMonitor.t -> DataDistMonitor.t :=
  DataDistMonitor.with_mon (DataDistMonitoring.push name key val).

Definition DDMON_RATE (name key : string) (val : float) : DataDistMonitor.t -> DataDistMonitor.t :=
  DataDistMonitor.with_mon (DataDistMonitoring.push_rate name key val).

(** [p] holds on the [n] integers from [i] on. *)
Fixpoint all_from (n : nat) (i : Z) (p : Z -> bool) : bool :=
  match n with
  | O => true
  | S n' => p i && all_from n' (i + 1)%Z p
  end.

(** The exact value of a double, as a rational: a finite double is
    [+-m * 2^e]; an infinity or a NaN has none. *)
Definition double_value (d : float) : option Q :=
  match Prim2SF d with
  | S754_zero _ => Some 0%Q
  | S754_finite s m e =>
      let n := if s then Z.neg m else Z.pos m in
      Some (if (e <? 0)%Z then Qmake n (Z.to_pos (2 ^ (- e))) else inject_Z (n * 2 ^ e))
  | _ => None
  end.

(** The samples a burst of producer calls hands to each queue, in call
    order. *)
Definition plain_samples (cs : list Producer) : list Sample :=
  omap (fun c => match c with Push n k v => Some (n, k, v) | PushRate _ _ _ => None end) cs.

Definition rate_samples (cs : list Producer) : list Sample :=
  omap (fun c => match c with PushRate n k v => Some (n, k, v) | Push _ _ _ => None end) cs.

(** * Properties *)

Import DataDistMonitoring.
Local Open Scope Z_scope.

(** ** The order of doubles *)

Lemma SFcompare_key (x y : spec_float) :
  x <> S754_nan -> y <> S754_nan ->
  exists c, SFcompare x y = Some c /\
    match c with
    | Lt => lex_lt (key x) (key y)
    | Eq => key x = key y
    | Gt => lex_lt (key y) (key x)
    end.
Proof.
  unfold lex_lt.
  destruct x as [sx|sx| |sx mx ex], y as [sy|sy| |sy my ey];
    intros Hx Hy; try congruence;
    try destruct sx; try destruct sy; cbn;
    try (eexists; split; [reflexivity|]; cbn; first [reflexivity | lia]).
  all: rewrite Pos.compare_cont_spec; cbn.
  all: destruct (Z.compare_spec ex ey); destruct (Pos.compare_spec mx my); cbn.
  all: eexists; split; [reflexivity|]; cbn; first [ congruence | lia ].
Qed.

Lemma nan_dec (s : spec_float) : s = S754_nan \/ s <> S754_nan.
Proof. destruct s; auto; right; discriminate. Qed.

Lemma ltb_key (x y : float) :
  PrimFloat.ltb x y = true <-> is_num x /\ is_num y /\ lex_lt (fkey x) (fkey y).
Proof.
  rewrite FloatAxioms.ltb_spec. unfold SFltb, is_num, fkey.
  destruct (nan_dec (Prim2SF x)) as [Hx|Hx].
  { rewrite Hx. cbn. split; [discriminate | tauto]. }
  destruct (nan_dec (Prim2SF y)) as [Hy|Hy].
  { rewrite Hy. destruct (Prim2SF x); cbn; (split; [discriminate | tauto]). }
  destruct (SFcompare_key _ _ Hx Hy) as (c & -> & Hc).
  unfold lex_lt in *.
  destruct (key (Prim2SF x)) as [[a1 a2] a3], (key (Prim2SF y)) as [[b1 b2] b3].
  cbn in *. destruct c; split; intros H; try discriminate; try tauto.
  - exfalso. injection Hc as -> -> ->. lia.
  - exfalso. lia.
Qed.

Lemma eqb_key (x y : float) :
  PrimFloat.eqb x y = true <-> is_num x /\ is_num y /\ fkey x = fkey y.
Proof.
  rewrite FloatAxioms.eqb_spec. unfold SFeqb, is_num, fkey.
  destruct (nan_dec (Prim2SF x)) as [Hx|Hx].
  { rewrite Hx. cbn. split; [discriminate | tauto]. }
  destruct (nan_dec (Prim2SF y)) as [Hy|Hy].
  { rewrite Hy. destruct (Prim2SF x); cbn; (split; [discriminate | tauto]). }
  destruct (SFcompare_key _ _ Hx Hy) as (c & -> & Hc).
  unfold lex_lt in *.
  destruct (key (Prim2SF x)) as [[a1 a2] a3], (key (Prim2SF y)) as [[b1 b2] b3].
  cbn in *. destruct c; split; intros H; try discriminate; try tauto.
  - exfalso. destruct H as (_ & _ & H). injection H as -> -> ->. lia.
  - exfalso. destruct H as (_ & _ & H). injection H as -> -> ->. lia.
Qed.

Lemma leb_key (x y : float) :
  PrimFloat.leb x y = true <->
  is_num x /\ is_num y /\ (lex_lt (fkey x) (fkey y) \/ fkey x = fkey y).
Proof.
  rewrite FloatAxioms.leb_spec. unfold SFleb, is_num, fkey.
  destruct (nan_dec (Prim2SF x)) as [Hx|Hx].
  { rewrite Hx. cbn. split; [discriminate | tauto]. }
  destruct (nan_dec (Prim2SF y)) as [Hy|Hy].
  { rewrite Hy. destruct (Prim2SF x); cbn; (split; [discriminate | tauto]). }
  destruct (SFcompare_key _ _ Hx Hy) as (c & -> & Hc).
  unfold lex_lt in *.
  destruct (key (Prim2SF x)) as [[a1 a2] a3], (key (Prim2SF y)) as [[b1 b2] b3].
  cbn in *. destruct c; split; intros H; try discriminate; try tauto.
  exfalso. destruct H as (_ & _ & [H|H]); [lia|]. injection H as -> -> ->. lia.
Qed.

Lemma is_nan_num (x : float) : PrimFloat.is_nan x = false <-> is_num x.
Proof.
  unfold PrimFloat.is_nan. rewrite negb_false_iff, eqb_key. tauto.
Qed.

Lemma leb_refl (x : float) : is_num x -> PrimFloat.leb x x = true.
Proof. intros Hx. apply leb_key. auto. Qed.

Lemma leb_trans (x y z : float) :
  PrimFloat.leb x y = true -> PrimFloat.leb y z = true -> PrimFloat.leb x z = true.
Proof.
  rewrite !leb_key. intros (Hx & Hy & Hxy) (_ & Hz & Hyz).
  split; [done|]. split; [done|].
  order_keys. destruct Hxy as [Hxy|Hxy], Hyz as [Hyz|Hyz];
    try (injection Hxy as ? ? ?); try (injection Hyz as ? ? ?); subst;
    first [ right; reflexivity | left; lia ].
Qed.

Lemma ltb_leb (x y : float) : PrimFloat.ltb x y = true -> PrimFloat.leb x y = true.
Proof. rewrite ltb_key, leb_key. tauto. Qed.

Lemma not_ltb_leb (x y : float) :
  is_num x -> is_num y -> PrimFloat.ltb x y = false -> PrimFloat.leb y x = true.
Proof.
  intros Hx Hy H. apply leb_key. split; [done|]. split; [done|].
  assert (~ lex_lt (fkey x) (fkey y)) as Hn.
  { intros Hlt. assert (PrimFloat.ltb x y = true) by (apply ltb_key; auto). congruence. }
  order_keys.
  destruct (decide (a = a0)) as [->|]; [|left; lia].
  destruct (decide (b = b0)) as [->|]; [|left; lia].
  destruct (decide (c = c0)) as [->|]; [right; reflexivity|left; lia].
Qed.

Lemma leb_antisym (x y : float) :
  PrimFloat.leb x y = true -> PrimFloat.leb y x = true -> PrimFloat.eqb x y = true.
Proof.
  rewrite !leb_key, eqb_key. intros (Hx & Hy & Hxy) (_ & _ & Hyx).
  split; [done|]. split; [done|].
  order_keys. destruct Hxy as [Hxy|Hxy]; [|done].
  destruct Hyx as [Hyx|Hyx]; [exfalso; lia | by symmetry].
Qed.

Lemma ltb_num (x y : float) : PrimFloat.ltb x y = true -> is_num x /\ is_num y.
Proof. rewrite ltb_key. tauto. Qed.

(** ** Running extrema

    [std_min] and [std_max] folded over a list, treated once: [sel] picks
    between the running value and the sample, [R x y] says that [x] is at
    least as extreme as [y]. *)

Section Extremum.

Variable sel : float -> float -> float.
Variable R : float -> float -> Prop.
Hypothesis R_refl : forall x, is_num x -> R x x.
Hypothesis R_trans : forall x y z, R x y -> R y z -> R x z.
Hypothesis sel_cases : forall a v, sel a v = a \/ (sel a v = v /\ is_num v).
Hypothesis sel_l : forall a v, is_num a -> R (sel a v) a.
Hypothesis sel_r : forall a v, is_num a -> is_num v -> R (sel a v) v.

Lemma sel_num (a v : float) : is_num a -> is_num (sel a v).
Proof using sel_cases.
  intros Ha. destruct (sel_cases a v) as [-> | [-> Hv]]; done.
Qed.

Lemma extremum_spec (vs : list float) : forall a : float,
  is_num a ->
  is_num (fold_left sel vs a) /\
  R (fold_left sel vs a) a /\
  (forall v, v ∈ vs -> is_num v -> R (fold_left sel vs a) v) /\
  (fold_left sel vs a = a \/
   (fold_left sel vs a ∈ vs /\ is_num (fold_left sel vs a))).
Proof using R_refl R_trans sel_cases sel_l sel_r.
  induction vs as [|w vs IH]; intros a Ha; cbn.
  - split; [done|]. split; [by apply R_refl|]. split; [|by left].
    intros v Hv. by apply elem_of_nil in Hv.
  - destruct (IH (sel a w) (sel_num a w Ha)) as (Hn & Hle & Hall & Hmem).
    split; [done|]. split; [eapply R_trans; [exact Hle | by apply sel_l]|].
    split.
    + intros v Hv Hnv. apply elem_of_cons in Hv as [->|Hv]; [|by apply Hall].
      eapply R_trans; [exact Hle | by apply sel_r].
    + destruct Hmem as [Heq | [Hin Hnum]].
      * rewrite Heq. destruct (sel_cases a w) as [-> | [-> Hw]]; [by left|].
        right. split; [apply elem_of_cons; by left | done].
      * right. split; [apply elem_of_cons; by right | done].
Qed.

Lemma extremum_perm (vs vs' : list float) (a : float) :
  is_num a -> vs ≡ₚ vs' ->
  R (fold_left sel vs a) (fold_left sel vs' a).
Proof using R_refl R_trans sel_cases sel_l sel_r.
  intros Ha Hp.
  destruct (extremum_spec vs a Ha) as (_ & Hle & Hall & _).
  destruct (extremum_spec vs' a Ha) as (_ & _ & _ & [-> | [Hin Hnum]]); [done|].
  apply Hall; [by rewrite Hp | done].
Qed.

End Extremum.

(** ** [std::min] and [std::max] *)

Lemma std_min_cases a v : Double.std_min a v = a \/ (Double.std_min a v = v /\ is_num v).
Proof.
  unfold Double.std_min. destruct (PrimFloat.ltb v a) eqn:E; [right|by left].
  split; [done|]. by apply ltb_num in E as [? _].
Qed.

Lemma std_min_l a v : is_num a -> double_le (Double.std_min a v) a.
Proof.
  unfold Double.std_min, double_le. intros Ha. destruct (PrimFloat.ltb v a) eqn:E.
  - by apply ltb_leb.
  - by apply leb_refl.
Qed.

Lemma std_min_r a v : is_num a -> is_num v -> double_le (Double.std_min a v) v.
Proof.
  unfold Double.std_min, double_le. intros Ha Hv. destruct (PrimFloat.ltb v a) eqn:E.
  - by apply leb_refl.
  - by apply not_ltb_leb.
Qed.

Lemma std_max_cases a v : Double.std_max a v = a \/ (Double.std_max a v = v /\ is_num v).
Proof.
  unfold Double.std_max. destruct (PrimFloat.ltb a v) eqn:E; [right|by left].
  split; [done|]. by apply ltb_num in E as [_ ?].
Qed.

Lemma std_max_l a v : is_num a -> double_le a (Double.std_max a v).
Proof.
  unfold Double.std_max, double_le. intros Ha. destruct (PrimFloat.ltb a v) eqn:E.
  - by apply ltb_leb.
  - by apply leb_refl.
Qed.

Lemma std_max_r a v : is_num a -> is_num v -> double_le v (Double.std_max a v).
Proof.
  unfold Double.std_max, double_le. intros Ha Hv. destruct (PrimFloat.ltb a v) eqn:E.
  - by apply leb_refl.
  - by apply not_ltb_leb.
Qed.

(** ** The fold of samples into a record *)

Lemma fold_samples_cons r v vs :
  fold_samples r (v :: vs) = fold_samples (fold_sample r v) vs.
Proof. reflexivity. Qed.

Lemma mMin_fold (vs : list float) : forall r,
  mMin (fold_samples r vs) = fold_left Double.std_min vs (mMin r).
Proof. induction vs as [|v vs IH]; intros r; [done|]. by rewrite fold_samples_cons, IH. Qed.

Lemma mMax_fold (vs : list float) : forall r,
  mMax (fold_samples r vs) = fold_left Double.std_max vs (mMax r).
Proof. induction vs as [|v vs IH]; intros r; [done|]. by rewrite fold_samples_cons, IH. Qed.

Lemma mCount_fold (vs : list float) : forall r,
  mCount (fold_samples r vs) =
  Nat.iter (length vs) (fun c => (c + 1)%float) (mCount r).
Proof.
  induction vs as [|v vs IH]; intros r; [done|].
  rewrite fold_samples_cons, IH. cbn [length]. by rewrite Nat.iter_succ_r.
Qed.

Lemma min_spec (vs : list float) (r : RateVals) :
  is_num (mMin r) ->
  is_num (mMin (fold_samples r vs)) /\
  double_le (mMin (fold_samples r vs)) (mMin r) /\
  (forall v, v ∈ vs -> is_num v -> double_le (mMin (fold_samples r vs)) v).
Proof.
  intros Hr. rewrite mMin_fold.
  destruct (extremum_spec Double.std_min double_le) with (vs := vs) (a := mMin r)
    as (H1 & H2 & H3 & _); auto using std_min_cases, std_min_l, std_min_r.
  - intros x. apply leb_refl.
  - intros x y z. apply leb_trans.
Qed.

Lemma max_spec (vs : list float) (r : RateVals) :
  is_num (mMax r) ->
  is_num (mMax (fold_samples r vs)) /\
  double_le (mMax r) (mMax (fold_samples r vs)) /\
  (forall v, v ∈ vs -> is_num v -> double_le v (mMax (fold_samples r vs))).
Proof.
  intros Hr. rewrite mMax_fold.
  destruct (extremum_spec Double.std_max (flip double_le)) with (vs := vs) (a := mMax r)
    as (H1 & H2 & H3 & _); auto using std_max_cases.
  - intros x. apply leb_refl.
  - intros x y z H H'. exact (leb_trans _ _ _ H' H).
  - intros a v. apply std_max_l.
  - intros a v. apply std_max_r.
Qed.

(** ** The rate-metric map *)

Lemma rate_record_collect_rate (m : RateMetricMap) (s : Sample) (name key : string) :
  rate_record (collect_rate m s) name key =
  if decide (s.1.1 = name /\ s.1.2 = key)
  then Some (fold_sample (default RateVals_init (rate_record m name key)) s.2)
  else rate_record m name key.
Proof.
  destruct s as [[n k] v]. unfold rate_record, collect_rate, at_key. cbn.
  destruct (decide (n = name)) as [->|Hn].
  - rewrite lookup_insert_eq. cbn.
    destruct (decide (k = key)) as [->|Hk].
    + rewrite lookup_insert_eq, decide_True by done.
      by destruct (m !! name).
    + rewrite lookup_insert_ne, decide_False by tauto.
      destruct (m !! name); [done|]. cbn. apply lookup_empty.
  - rewrite lookup_insert_ne, decide_False by tauto. done.
Qed.

Lemma rate_record_collect_rates (ss : list Sample) (name key : string) :
  forall m : RateMetricMap,
  rate_record (collect_rates m ss) name key =
  match values_of name key ss with
  | [] => rate_record m name key
  | vs => Some (fold_samples (default RateVals_init (rate_record m name key)) vs)
  end.
Proof.
  induction ss as [|[[n k] v] ss IH]; intros m; [done|].
  unfold collect_rates in *. cbn [fold_left]. rewrite IH.
  rewrite rate_record_collect_rate. unfold values_of. cbn.
  destruct (decide (n = name /\ k = key)) as [H|H]; cbn.
  - by destruct (omap _ ss).
  - done.
Qed.

Lemma rate_record_empty (name key : string) :
  rate_record (∅ : RateMetricMap) name key = None.
Proof. unfold rate_record. by rewrite lookup_empty. Qed.

Lemma rate_record_from_empty (ss : list Sample) (name key : string) (r : RateVals) :
  rate_record (collect_rates ∅ ss) name key = Some r ->
  r = fold_samples RateVals_init (values_of name key ss).
Proof.
  rewrite rate_record_collect_rates, rate_record_empty. cbn.
  destruct (values_of name key ss); [done|]. by intros [= <-].
Qed.

Lemma elem_of_values_of (ss : list Sample) (name key : string) (v : float) :
  v ∈ values_of name key ss <-> (name, key, v) ∈ ss.
Proof.
  unfold values_of. rewrite list_elem_of_omap. split.
  - intros ([[n k] w] & Hin & Heq). destruct (decide _) as [[-> ->]|]; [|done].
    by injection Heq as ->.
  - intros Hin. exists (name, key, v). split; [done|]. by rewrite decide_True.
Qed.

(** A key is in the map only once a sample was folded under it. *)
Lemma rate_record_has_sample (ss : list Sample) (name key : string) (r : RateVals) :
  rate_record (collect_rates ∅ ss) name key = Some r ->
  exists v : float, (name, key, v) ∈ ss.
Proof.
  rewrite rate_record_collect_rates, rate_record_empty.
  destruct (values_of name key ss) as [|v vs] eqn:E; [done|]. intros _.
  exists v. apply elem_of_values_of. rewrite E. apply elem_of_cons. by left.
Qed.

Lemma values_of_perm (ss ss' : list Sample) (name key : string) :
  ss ≡ₚ ss' -> values_of name key ss ≡ₚ values_of name key ss'.
Proof. intros H. unfold values_of. by rewrite H. Qed.

Lemma init_min_num : is_num (mMin RateVals_init).
Proof. apply is_nan_num. reflexivity. Qed.

Lemma init_max_num : is_num (mMax RateVals_init).
Proof. apply is_nan_num. reflexivity. Qed.

Lemma min_perm (vs vs' : list float) (a : float) :
  is_num a -> vs ≡ₚ vs' ->
  double_le (fold_left Double.std_min vs a) (fold_left Double.std_min vs' a).
Proof.
  apply (extremum_perm Double.std_min double_le);
    auto using std_min_cases, std_min_l, std_min_r.
  - intros x. apply leb_refl.
  - intros x y z. apply leb_trans.
Qed.

Lemma max_perm (vs vs' : list float) (a : float) :
  is_num a -> vs ≡ₚ vs' ->
  double_le (fold_left Double.std_max vs' a) (fold_left Double.std_max vs a).
Proof.
  apply (extremum_perm Double.std_max (flip double_le)); auto using std_max_cases.
  - intros x. apply leb_refl.
  - intros x y z H H'. exact (leb_trans _ _ _ H' H).
  - intros b v. apply std_max_l.
  - intros b v. apply std_max_r.
Qed.

(** ** Rate statistics: bounds (C1), sentinels (C2), order of arrival (C8) *)

(** C1, as stated, fails: a record with [count > 0] whose reported mean
    [meanAccumulator / count] lies above its [max]. Three samples of the
    double nearest to 0.1 accumulate to 0.30000000000000004, and that
    divided by 3 is 0.10000000000000002. *)
Lemma mean_may_exceed_max :
  ~ (forall (ss : list Sample) (name key : string) (r : RateVals),
       rate_record (collect_rates ∅ ss) name key = Some r ->
       PrimFloat.ltb 0 (mCount r) = true ->
       double_le (mMin r) (mean r) /\ double_le (mean r) (mMax r)).
Proof.
  intros H.
  destruct (H [("rate_x", "a", 0x1.999999999999ap-4%float);
               ("rate_x", "a", 0x1.999999999999ap-4%float);
               ("rate_x", "a", 0x1.999999999999ap-4%float)]
              "rate_x" "a"
              (mkRateVals 0x1.999999999999ap-4 0x1.999999999999ap-4
                          0x1.3333333333334p-2 3)) as [_ Hmax].
  - vm_compute. reflexivity.
  - vm_compute. reflexivity.
  - vm_compute in Hmax. discriminate Hmax.
Qed.

(** C1, amended: in every record of the rate map built from a stream of
    samples, [min <= v <= max] for every sample [v] of that name and key
    that is not a NaN, and so [min <= max]. Nothing is promised for the
    mean, which is a rounded quotient of a rounded sum. *)
Theorem rate_record_brackets_samples
    (ss : list Sample) (name key : string) (r : RateVals) (v : float) :
  rate_record (collect_rates ∅ ss) name key = Some r ->
  (name, key, v) ∈ ss ->
  PrimFloat.is_nan v = false ->
  double_le (mMin r) v /\ double_le v (mMax r) /\ double_le (mMin r) (mMax r).
Proof.
  intros Hr Hin Hv. apply rate_record_from_empty in Hr as ->.
  apply is_nan_num in Hv. apply elem_of_values_of in Hin.
  destruct (min_spec (values_of name key ss) RateVals_init init_min_num)
    as (_ & _ & Hmin).
  destruct (max_spec (values_of name key ss) RateVals_init init_max_num)
    as (_ & _ & Hmax).
  specialize (Hmin v Hin Hv). specialize (Hmax v Hin Hv).
  split; [done|]. split; [done|]. exact (leb_trans _ _ _ Hmin Hmax).
Qed.

Lemma rate_record_brackets_samples_witness :
  double_le 1 3 /\ double_le 3 3 /\ double_le 1 3.
Proof.
  apply (rate_record_brackets_samples
           [("rate_x", "a", 1%float); ("rate_x", "a", 3%float); ("rate_x", "a", 2%float)]
           "rate_x" "a" (mkRateVals 1 3 6 3) 3).
  - vm_compute. reflexivity.
  - apply list_elem_of_In. simpl. tauto.
  - reflexivity.
Defined.

(** The end-to-end scenario of the spec: samples 1, 3, 2 give
    min 1, max 3, mean 2, count 3. *)
Lemma rate_scenario :
  rate_record
    (collect_rates ∅ [("rate_x", "a", 1%float); ("rate_x", "a", 3%float);
                      ("rate_x", "a", 2%float)]) "rate_x" "a"
  = Some (mkRateVals 1 3 6 3) /\
  mean (mkRateVals 1 3 6 3) = 2%float.
Proof. vm_compute. split; reflexivity. Qed.

(** Every double other than a NaN and [+inf] is at most [DBL_MAX]: a
    valid finite double has a mantissa below 2^53 and an exponent of at
    most 971. *)
Lemma digits2_pos_bound (m : positive) : Z.pos m < 2 ^ Z.pos (digits2_pos m).
Proof.
  induction m as [m IH|m IH|]; cbn [digits2_pos].
  - rewrite Pos2Z.inj_succ, Z.pow_succ_r by lia. lia.
  - rewrite Pos2Z.inj_succ, Z.pow_succ_r by lia. lia.
  - reflexivity.
Qed.

Lemma valid_finite_bounds (s : bool) (m : positive) (e : Z) :
  SpecFloat.valid_binary prec emax (S754_finite s m e) = true ->
  Z.pos m < 2 ^ 53 /\ e <= 971.
Proof.
  cbn [SpecFloat.valid_binary]. unfold bounded, canonical_mantissa, fexp, emin, prec, emax.
  intros [H1 H2]%andb_prop. apply Z.leb_le in H2.
  apply Z.eqb_eq in H1. 
  pose proof (digits2_pos_bound m) as Hd.
  assert (Z.pos (digits2_pos m) <= 53) as Hle by lia.
  split; [|lia].
  eapply Z.lt_le_trans; [exact Hd|]. apply Z.pow_le_mono_r; lia.
Qed.

Lemma finite_le_DBL_MAX (v : float) :
  is_num v -> Prim2SF v <> S754_infinity false -> double_le v Double.DBL_MAX.
Proof.
  intros Hv Hinf. apply leb_key. split; [done|]. split; [by apply is_nan_num|].
  unfold fkey. pose proof (Prim2SF_valid v) as Hval.
  change (Prim2SF Double.DBL_MAX) with (S754_finite false 9007199254740991 971).
  unfold lex_lt, is_num in *.
  destruct (Prim2SF v) as [s|s| |s m e]; try done.
  - cbn. left. left. lia.
  - destruct s; cbn; [left; left; lia|done].
  - apply valid_finite_bounds in Hval as [Hm He].
    destruct s; cbn; [left; left; lia|].
    destruct (decide (e = 971)) as [->|]; [|left; right; lia].
    destruct (decide (Z.pos m = 9007199254740991)) as [->|]; [by right|left; right; lia].
Qed.

(** Where the sentinels do give way to the first sample: [min] for
    every sample below [+inf], [max] for every sample from 2^-1022 up. *)
Lemma first_sample_min (v : float) :
  PrimFloat.ltb v infinity = true ->
  PrimFloat.eqb (mMin (fold_sample RateVals_init v)) v = true.
Proof.
  intros Hlt. apply ltb_key in Hlt as (Hv & _ & Hlt).
  assert (Prim2SF v <> S754_infinity false) as Hinf.
  { intros Heq. unfold fkey, lex_lt in Hlt. rewrite Heq in Hlt.
    change (Prim2SF infinity) with (S754_infinity false) in Hlt. cbn in Hlt. lia. }
  cbn. unfold Double.std_min.
  destruct (PrimFloat.ltb v Double.DBL_MAX) eqn:E.
  - apply leb_antisym; by apply leb_refl.
  - apply leb_antisym; [|by apply finite_le_DBL_MAX].
    apply not_ltb_leb; [done| |done]. apply init_min_num.
Qed.

Lemma first_sample_max (v : float) :
  double_le Double.DBL_MIN v ->
  PrimFloat.eqb (mMax (fold_sample RateVals_init v)) v = true.
Proof.
  intros Hle. cbn. unfold Double.std_max.
  assert (is_num v) as Hv by (apply leb_key in Hle; tauto).
  destruct (PrimFloat.ltb Double.DBL_MIN v) eqn:E.
  - apply leb_antisym; by apply leb_refl.
  - apply leb_antisym; [done|].
    apply not_ltb_leb; [|done|done]. apply init_max_num.
Qed.

(** C2: the sentinels of a fresh record are finite, and the one of [max]
    is positive: [min] starts at the largest finite double and [max] at
    2^-1022. A first sample of -1 (or of 0) therefore leaves [max] at
    the sentinel instead of the sample. *)
Lemma first_sample_below_sentinel :
  mMin RateVals_init = Double.DBL_MAX /\
  mMax RateVals_init = Double.DBL_MIN /\
  mCount RateVals_init = 0%float /\
  PrimFloat.ltb 0 Double.DBL_MIN = true /\
  PrimFloat.ltb Double.DBL_MAX infinity = true /\
  fold_sample RateVals_init (-1) = mkRateVals (-1) Double.DBL_MIN (-1) 1 /\
  fold_sample RateVals_init 0 = mkRateVals 0 Double.DBL_MIN 0 1 /\
  fold_sample RateVals_init 5 = mkRateVals 5 5 5 1.
Proof. vm_compute. repeat split; reflexivity. Qed.

(** C8, as stated, fails: 0.3, 0.2, 0.1 and 0.3, 0.1, 0.2 are the same
    multiset of samples, and their means differ (0.19999999999999998
    and 0.20000000000000004): double addition is not associative. *)
Lemma mean_depends_on_order :
  ~ (forall (ss ss' : list Sample) (name key : string) (r r' : RateVals),
       ss ≡ₚ ss' ->
       rate_record (collect_rates ∅ ss) name key = Some r ->
       rate_record (collect_rates ∅ ss') name key = Some r' ->
       PrimFloat.eqb (mMin r) (mMin r') = true /\
       PrimFloat.eqb (mMax r) (mMax r') = true /\
       PrimFloat.eqb (mean r) (mean r') = true /\
       PrimFloat.eqb (mCount r) (mCount r') = true).
Proof.
  intros H.
  destruct (H [("rate_x", "a", 0x1.3333333333333p-2%float);
               ("rate_x", "a", 0x1.999999999999ap-3%float);
               ("rate_x", "a", 0x1.999999999999ap-4%float)]
              [("rate_x", "a", 0x1.3333333333333p-2%float);
               ("rate_x", "a", 0x1.999999999999ap-4%float);
               ("rate_x", "a", 0x1.999999999999ap-3%float)]
              "rate_x" "a" _ _ (perm_skip _ (perm_swap _ _ _)) eq_refl eq_refl)
    as (_ & _ & Hmean & _).
  vm_compute in Hmean. discriminate Hmean.
Qed.

(** C8, amended: for two streams that are permutations of each other, a
    key has a record in one exactly when it has one in the other, and the
    two records have equal [min] and equal [max] (as doubles compare) and
    the same [count]. The mean is left out. *)
Theorem rate_stats_permutation
    (ss ss' : list Sample) (name key : string) (r : RateVals) :
  ss ≡ₚ ss' ->
  rate_record (collect_rates ∅ ss) name key = Some r ->
  exists r' : RateVals,
    rate_record (collect_rates ∅ ss') name key = Some r' /\
    PrimFloat.eqb (mMin r) (mMin r') = true /\
    PrimFloat.eqb (mMax r) (mMax r') = true /\
    mCount r = mCount r'.
Proof.
  intros Hp Hr. pose proof (values_of_perm ss ss' name key Hp) as Hv.
  rewrite rate_record_collect_rates, rate_record_empty in Hr. cbn in Hr.
  exists (fold_samples RateVals_init (values_of name key ss')). split.
  { rewrite rate_record_collect_rates, rate_record_empty. cbn.
    destruct (values_of name key ss') as [|w ws] eqn:E; [|done].
    apply Permutation_nil_r in Hv. by rewrite Hv in Hr. }
  assert (r = fold_samples RateVals_init (values_of name key ss)) as ->.
  { destruct (values_of name key ss); [done|]. by injection Hr as <-. }
  rewrite !mMin_fold, !mMax_fold, !mCount_fold, (Permutation_length Hv).
  split; [|split; [|done]].
  - apply leb_antisym; apply min_perm; auto using init_min_num. by symmetry.
  - apply leb_antisym; apply max_perm; auto using init_max_num. by symmetry.
Qed.

Lemma rate_stats_permutation_witness :
  exists r' : RateVals,
    rate_record (collect_rates ∅ [("rate_x", "a", 3%float); ("rate_x", "a", 1%float)])
                "rate_x" "a" = Some r' /\
    PrimFloat.eqb 1 (mMin r') = true /\
    PrimFloat.eqb 3 (mMax r') = true /\
    2%float = mCount r'.
Proof.
  apply (rate_stats_permutation
           [("rate_x", "a", 1%float); ("rate_x", "a", 3%float)]
           [("rate_x", "a", 3%float); ("rate_x", "a", 1%float)]
           "rate_x" "a" (mkRateVals 1 3 4 2)).
  - apply perm_swap.
  - vm_compute. reflexivity.
Defined.

(** ** Producer calls: the guard (C3) and the queue bound (C9) *)

(** C3, as stated, fails: with logging switched on, an inactive pipeline
    still enqueues. The guard of [push] and [push_rate] reads
    [mLogMetric] and [mO2Monitoring], never [mActive]. *)
Lemma push_ignores_active_flag :
  ~ (forall (m : DataDistMonitoring.t) (name key : string) (v : float),
       mActive m = false ->
       mMetricsQueue (push name key v m) = mMetricsQueue m /\
       mRateMetricsQueue (push_rate name key v m) = mRateMetricsQueue m).
Proof.
  intros H.
  destruct (H (set_log true (init None)) "m" "k" 1%float eq_refl) as [Hq _].
  discriminate Hq.
Qed.

Lemma push_capacity_not_full {A : Type} (cap : nat) (x : A) (q : list A) :
  (length q < cap)%nat -> push_capacity cap x q = q ++ [x].
Proof.
  intros H. unfold push_capacity. by destruct (Nat.ltb_spec (length q) cap); [|lia].
Qed.

(** C3, amended: while logging is off and no backend is attached, [push]
    and [push_rate] leave the object, and so both queues, unchanged. With
    logging on or a backend attached they hand the sample to their queue
    with the bound 4096 whatever the active flag is set to, and a queue
    that is not full gets the sample appended. *)
Theorem push_enqueues_iff_enabled
    (m : DataDistMonitoring.t) (name key : string) (v : float) :
  (mLogMetric m = false -> mO2Monitoring m = None ->
   push name key v m = m /\ push_rate name key v m = m) /\
  (mLogMetric m = true \/ is_Some (mO2Monitoring m) ->
   forall b : bool,
     push name key v (set_active b m) =
       DataDistMonitoring.mk
         (push_capacity 4096 (name, key, v) (mMetricsQueue m)) (mRateMetricsQueue m)
         b (mO2Monitoring m) (mMonitoringIntervalMs m)
         (mMonitoringIntervalStepUs m) (mLogMetric m) /\
     push_rate name key v (set_active b m) =
       DataDistMonitoring.mk
         (mMetricsQueue m) (push_capacity 4096 (name, key, v) (mRateMetricsQueue m))
         b (mO2Monitoring m) (mMonitoringIntervalMs m)
         (mMonitoringIntervalStepUs m) (mLogMetric m) /\
     ((length (mMetricsQueue m) < 4096)%nat ->
      mMetricsQueue (push name key v (set_active b m))
        = mMetricsQueue m ++ [(name, key, v)]) /\
     ((length (mRateMetricsQueue m) < 4096)%nat ->
      mRateMetricsQueue (push_rate name key v (set_active b m))
        = mRateMetricsQueue m ++ [(name, key, v)])).
Proof.
  split.
  - intros Hlog Hmon. unfold push, push_rate, enabled. by rewrite Hlog, Hmon.
  - intros Hen b.
    assert (enabled (set_active b m) = true) as He.
    { unfold enabled, set_active. cbn. destruct Hen as [-> | Hs]; [done|].
      rewrite (bool_decide_eq_true_2 _ Hs). apply orb_true_r. }
    unfold push, push_rate. rewrite He.
    split; [done|]. split; [done|].
    split; intros Hlen; cbn [mMetricsQueue mRateMetricsQueue set_active];
      by apply push_capacity_not_full.
Qed.

Lemma push_enqueues_iff_enabled_witness :
  (push "m" "k" 1 (init None) = init None /\
   push_rate "m" "k" 1 (init None) = init None) /\
  mMetricsQueue (push "m" "k" 1 (set_active false (set_log true (init None))))
    = mMetricsQueue (set_log true (init None)) ++ [("m", "k", 1%float)].
Proof.
  split.
  - apply (push_enqueues_iff_enabled (init None) "m" "k" 1%float); reflexivity.
  - apply (push_enqueues_iff_enabled (set_log true (init None)) "m" "k" 1%float).
    + left. reflexivity.
    + simpl. lia.
Defined.

(** The active flag plays no part in a push: setting it before or after
    gives the same object. *)
Lemma push_commutes_with_set_active
    (m : DataDistMonitoring.t) (name key : string) (v : float) (b : bool) :
  push name key v (set_active b m) = set_active b (push name key v m) /\
  push_rate name key v (set_active b m) = set_active b (push_rate name key v m).
Proof.
  unfold push, push_rate, set_active, enabled. cbn.
  by destruct (mLogMetric m || bool_decide (is_Some (mO2Monitoring m))).
Qed.

Lemma push_capacity_length {A : Type} (cap : nat) (x : A) (q : list A) :
  (length q <= cap)%nat -> (length (push_capacity cap x q) <= cap)%nat.
Proof.
  intros H. unfold push_capacity. destruct (Nat.ltb_spec (length q) cap); [|done].
  rewrite length_app. cbn. lia.
Qed.

Lemma produce_bounded (m : DataDistMonitoring.t) (c : Producer) :
  queues_bounded m -> queues_bounded (produce m c).
Proof.
  intros [H1 H2]. destruct c as [n k v|n k v]; cbn; unfold push, push_rate;
    destruct (enabled m); split; cbn; auto using push_capacity_length.
Qed.

Lemma push_capacity_take {A : Type} (cap : nat) (xs : list A) : forall q : list A,
  fold_left (fun q x => push_capacity cap x q) xs q = take cap (q ++ xs) \/
  (cap < length q)%nat.
Proof.
  induction xs as [|x xs IH]; intros q.
  - cbn. rewrite app_nil_r. destruct (Nat.le_gt_cases (length q) cap); [left|by right].
    by rewrite take_ge.
  - cbn [fold_left]. unfold push_capacity at 2.
    destruct (Nat.ltb_spec (length q) cap) as [Hlt|Hge].
    + destruct (IH (q ++ [x])) as [->|H]; [left; by rewrite <- app_assoc|].
      rewrite length_app in H. cbn in H. lia.
    + destruct (Nat.le_gt_cases (length q) cap); [|by right]. left.
      destruct (IH q) as [->|H']; [|lia].
      rewrite !take_app_le by lia. done.
Qed.

(** What a burst leaves in an empty queue: the first 4096 samples, in
    push order; the later ones are the ones dropped. *)
Lemma burst_keeps_first (m : DataDistMonitoring.t) (ss : list Sample) :
  enabled m = true -> mMetricsQueue m = [] ->
  mMetricsQueue (produce_all m (map (fun s : Sample => Push s.1.1 s.1.2 s.2) ss))
  = take 4096 ss.
Proof.
  intros He Hq.
  assert (forall (ss : list Sample) m, enabled m = true ->
            mMetricsQueue (produce_all m (map (fun s : Sample => Push s.1.1 s.1.2 s.2) ss)) =
            fold_left (fun q x => push_capacity 4096 x q) ss (mMetricsQueue m)) as Hfold.
  { clear. induction ss as [|[[n k] v] ss IH]; intros m He; [done|].
    cbn. unfold produce_all in IH. rewrite IH.
    - unfold push. rewrite He. done.
    - unfold push. rewrite He. done. }
  rewrite Hfold by done. rewrite Hq.
  destruct (push_capacity_take 4096 ss []) as [->|H]; [done|]. cbn in H. lia.
Qed.

Lemma produce_all_enabled (cs : list Producer) : forall m : DataDistMonitoring.t,
  enabled m = true ->
  mMetricsQueue (produce_all m cs)
    = fold_left (fun q x => push_capacity 4096 x q) (plain_samples cs) (mMetricsQueue m) /\
  mRateMetricsQueue (produce_all m cs)
    = fold_left (fun q x => push_capacity 4096 x q) (rate_samples cs) (mRateMetricsQueue m).
Proof.
  induction cs as [|c cs IH]; intros m He; [done|].
  unfold produce_all in *. cbn [fold_left].
  assert (enabled (produce m c) = true) as He'.
  { destruct c; cbn; unfold push, push_rate; rewrite He; exact He. }
  destruct (IH _ He') as [-> ->].
  destruct c as [n k v|n k v]; cbn; unfold push, push_rate; rewrite He; done.
Qed.

Lemma produce_all_disabled (cs : list Producer) (m : DataDistMonitoring.t) :
  enabled m = false -> produce_all m cs = m.
Proof.
  intros He. induction cs as [|c cs IH]; [done|].
  unfold produce_all in *. cbn [fold_left].
  assert (produce m c = m) as ->; [|done].
  destruct c; cbn; unfold push, push_rate; by rewrite He.
Qed.

(** C9: a burst of [push] and [push_rate] calls of any length, with no
    drain in between, on queues of at most 4096 samples. Each queue ends
    with at most 4096 samples. With the guard open, the plain queue is
    its old content followed by the pushed samples, in call order, cut
    at 4096, and the rate queue likewise: samples are enqueued while
    there is room and the excess is dropped. With the guard closed
    nothing changes. No call has an error result: [produce_all] is a
    total function on the object. *)
Theorem queues_never_exceed_capacity (cs : list Producer) (m : DataDistMonitoring.t) :
  (length (mMetricsQueue m) <= 4096)%nat ->
  (length (mRateMetricsQueue m) <= 4096)%nat ->
  (length (mMetricsQueue (produce_all m cs)) <= 4096)%nat /\
  (length (mRateMetricsQueue (produce_all m cs)) <= 4096)%nat /\
  (enabled m = true ->
   mMetricsQueue (produce_all m cs) = take 4096 (mMetricsQueue m ++ plain_samples cs) /\
   mRateMetricsQueue (produce_all m cs) = take 4096 (mRateMetricsQueue m ++ rate_samples cs)) /\
  (enabled m = false -> produce_all m cs = m).
Proof.
  intros H1 H2.
  assert (enabled m = true ->
    mMetricsQueue (produce_all m cs) = take 4096 (mMetricsQueue m ++ plain_samples cs) /\
    mRateMetricsQueue (produce_all m cs) = take 4096 (mRateMetricsQueue m ++ rate_samples cs)) as Hen.
  { intros He. destruct (produce_all_enabled cs m He) as [-> ->]. split.
    - destruct (push_capacity_take 4096 (plain_samples cs) (mMetricsQueue m)) as [->|H]; [done|lia].
    - destruct (push_capacity_take 4096 (rate_samples cs) (mRateMetricsQueue m)) as [->|H]; [done|lia]. }
  destruct (enabled m) eqn:He.
  - destruct (Hen eq_refl) as [-> ->].
    rewrite !length_take. repeat split; try lia; done.
  - rewrite (produce_all_disabled cs m He). repeat split; try done.
Qed.

Lemma queues_never_exceed_capacity_witness :
  (length (mMetricsQueue
     (produce_all (set_log true (init None))
        (replicate 5000 (Push "m" "k" 1) ++ replicate 5000 (PushRate "r" "k" 2))))
   <= 4096)%nat /\
  mRateMetricsQueue
    (produce_all (set_log true (init None))
       (replicate 5000 (Push "m" "k" 1) ++ replicate 5000 (PushRate "r" "k" 2)))
  = take 4096
      (mRateMetricsQueue (set_log true (init None)) ++
       rate_samples (replicate 5000 (Push "m" "k" 1) ++ replicate 5000 (PushRate "r" "k" 2))).
Proof.
  pose proof (queues_never_exceed_capacity
                (replicate 5000 (Push "m" "k" 1) ++ replicate 5000 (PushRate "r" "k" 2))
                (set_log true (init None)) ltac:(simpl; lia) ltac:(simpl; lia))
    as (H1 & _ & H3 & _).
  split; [exact H1 | exact (proj2 (H3 eq_refl))].
Defined.

(** ** The window step (C4) *)

(** C4: at 17180000 ms the stored step is 32704 us, where the formula of
    the spec gives 4295000000 us: [500 * 8590 * 1000] does not fit 32 bits
    and the product [... * 1000U] is taken on [unsigned]. The facade
    passes that interval on for 17180 seconds. The two named intervals,
    2000 ms and 500 ms, give 500000 us and 250000 us as claimed. *)
Lemma set_interval_step_wraps :
  mMonitoringIntervalStepUs (set_interval 17180000 (init None)) = 32704 /\
  spec_step_us 17180000 = 4295000000 /\
  mMonitoringIntervalMs (set_interval 17180000 (init None)) = 17180000 /\
  DataDistMonitor.set_interval 17180 (Some (init None))
    = Some (set_interval 17180000 (init None)) /\
  mMonitoringIntervalStepUs (set_interval 2000 (init None)) = 500000 /\
  mMonitoringIntervalStepUs (set_interval 500 (init None)) = 250000.
Proof. vm_compute. repeat split; reflexivity. Qed.

(** Below the wrap the stored step is the one of the spec: checked on
    every interval under four seconds and on the last one that fits. *)
Lemma step_us_small_intervals :
  forallb (fun I => step_us I =? spec_step_us I) (seqZ 0 4000) = true.
Proof. vm_compute. reflexivity. Qed.

Lemma step_us_last_before_wrap : step_us 17179999 = spec_step_us 17179999.
Proof. vm_compute. reflexivity. Qed.

(** ** The window rounder (C5, C6) *)

Lemma time_point_cast_us_us (t : Z) : time_point_cast_us (us t) = us t.
Proof. unfold time_point_cast_us, us. by rewrite Z.quot_mul. Qed.

(** On an instant given in whole microseconds the rounder is the
    truncating quotient of [t + S - 1] by [S], times [S]. *)
Lemma roundTimeNow_us (m : DataDistMonitoring.t) (t : Z) :
  0 < mMonitoringIntervalStepUs m ->
  roundTimeNow m (us t) =
  us (Z.quot (t + (mMonitoringIntervalStepUs m - 1)) (mMonitoringIntervalStepUs m)
      * mMonitoringIntervalStepUs m).
Proof.
  intros HS. unfold roundTimeNow. rewrite time_point_cast_us_us. unfold us.
  rewrite <- Z.mul_add_distr_r, Z.quot_mul_cancel_r by lia. done.
Qed.

Lemma quot_round_up (t S : Z) : 0 < S -> t <= Z.quot (t + (S - 1)) S * S.
Proof.
  intros HS. destruct (Z_le_gt_dec 0 (t + (S - 1))) as [Hx|Hx].
  - rewrite Z.quot_div_nonneg by lia.
    pose proof (Z.mod_pos_bound (t + (S - 1)) S HS).
    pose proof (Z.div_mod (t + (S - 1)) S). lia.
  - replace (t + (S - 1)) with (- (- (t + (S - 1)))) by lia.
    rewrite Z.quot_opp_l by lia. rewrite Z.quot_div_nonneg by lia.
    pose proof (Z.mod_pos_bound (- (t + (S - 1))) S HS).
    pose proof (Z.div_mod (- (t + (S - 1))) S). lia.
Qed.

Lemma quot_ceilDiv (t S : Z) :
  0 <= t -> 0 < S -> Z.quot (t + (S - 1)) S = ceilDiv t S.
Proof.
  intros Ht HS. unfold ceilDiv. rewrite Z.quot_div_nonneg by lia.
  pose proof (Z.div_mod (t + (S - 1)) S).
  pose proof (Z.mod_pos_bound (t + (S - 1)) S HS).
  pose proof (Z.div_mod (- t) S). pose proof (Z.mod_pos_bound (- t) S HS).
  nia.
Qed.

Lemma roundTimeNow_on_grid (m : DataDistMonitoring.t) (pNowMs : Z) :
  exists k : Z, roundTimeNow m pNowMs = us (k * mMonitoringIntervalStepUs m).
Proof. unfold roundTimeNow. eexists. reflexivity. Qed.

(** C5: after [set_interval 2000] the step is 500 ms and the instants
    1999 ms, 2000 ms and 2001 ms round to 2000 ms, 2000 ms and 2500 ms;
    after [set_interval 500] the step is 250 ms and every instant rounds
    to a multiple of 250 ms. In general, for an instant [t_us]
    microseconds after the epoch and a positive step [S] microseconds,
    [roundTimeNow] returns [ceilDiv t_us S * S] microseconds. *)
Theorem roundTimeNow_ceilDiv (m : DataDistMonitoring.t) :
  (mMonitoringIntervalStepUs (set_interval 2000 m) = 500000 /\
   roundTimeNow (set_interval 2000 m) (ms 1999) = ms 2000 /\
   roundTimeNow (set_interval 2000 m) (ms 2000) = ms 2000 /\
   roundTimeNow (set_interval 2000 m) (ms 2001) = ms 2500 /\
   mMonitoringIntervalStepUs (set_interval 500 m) = 250000 /\
   (forall pNowMs : Z, exists k : Z,
      roundTimeNow (set_interval 500 m) pNowMs = ms (k * 250))) /\
  (forall t_us : Z,
     0 <= t_us -> 0 < mMonitoringIntervalStepUs m ->
     roundTimeNow m (us t_us) =
       us (ceilDiv t_us (mMonitoringIntervalStepUs m) * mMonitoringIntervalStepUs m)).
Proof.
  assert (step_us 2000 = 500000) as H2000 by (vm_compute; reflexivity).
  assert (step_us 500 = 250000) as H500 by (vm_compute; reflexivity).
  split.
  - unfold roundTimeNow, set_interval. cbn [mMonitoringIntervalStepUs].
    rewrite H2000, H500.
    split; [done|]. split; [by vm_compute|]. split; [by vm_compute|].
    split; [by vm_compute|]. split; [done|].
    intros pNowMs. eexists. unfold us, ms. rewrite <- Z.mul_assoc.
    rewrite (Z.mul_assoc _ 250 1000000). reflexivity.
  - intros t_us Ht HS. by rewrite roundTimeNow_us, quot_ceilDiv.
Qed.

Lemma roundTimeNow_ceilDiv_witness :
  roundTimeNow (init None) (us 1200001) = us (ceilDiv 1200001 500000 * 500000).
Proof.
  apply (roundTimeNow_ceilDiv (init None)); [lia | reflexivity].
Defined.

(** C6: for every instant given in whole microseconds, before or after
    the epoch, and every positive step, the rounded instant is not
    earlier than the instant. *)
Theorem roundTimeNow_not_earlier (m : DataDistMonitoring.t) (t_us : Z) :
  0 < mMonitoringIntervalStepUs m ->
  us t_us <= roundTimeNow m (us t_us).
Proof.
  intros HS. rewrite roundTimeNow_us by done. unfold us.
  pose proof (quot_round_up t_us _ HS). lia.
Qed.

Lemma roundTimeNow_not_earlier_witness :
  us 2001000 <= roundTimeNow (init None) (us 2001000).
Proof.
  apply (roundTimeNow_not_earlier (init None) 2001000). reflexivity.
Defined.

(** The qualification "in whole microseconds" matters: the cast drops a
    trailing nanosecond before rounding. *)
Lemma roundTimeNow_sub_microsecond :
  roundTimeNow (set_interval 2000 (init None)) (ms 2000 + 1) = ms 2000.
Proof. vm_compute. reflexivity. Qed.

(** So does "after the epoch" for the ceiling: C++ division truncates
    toward zero, which on a negative count is not the floor. *)
Lemma roundTimeNow_before_epoch :
  roundTimeNow (set_interval 2000 (init None)) (us (- 500000)) = 0 /\
  us (ceilDiv (- 500000) 500000 * 500000) = ms (- 500).
Proof. vm_compute. split; reflexivity. Qed.

Lemma quot_mul_bounds (a b : Z) :
  0 < b -> - Z.abs a <= Z.quot a b * b <= Z.abs a.
Proof.
  intros Hb. destruct (Z_le_gt_dec 0 a) as [Ha|Ha].
  - pose proof (Z.mul_quot_le a b Ha ltac:(lia)). lia.
  - pose proof (Z.mul_quot_ge a b ltac:(lia) ltac:(lia)). lia.
Qed.

Lemma quot_bounds (a b : Z) : 0 < b -> - Z.abs a <= Z.quot a b <= Z.abs a.
Proof.
  intros Hb. pose proof (quot_mul_bounds a b Hb). nia.
Qed.

(** No 64-bit overflow: for a step below 2^32 us and an instant within
    2^62 ns of the epoch (about 146 years), every value [roundTimeNow]
    computes fits a signed 64-bit count. *)
Lemma roundTimeNow_fits_int64 (m : DataDistMonitoring.t) (pNowMs : Z) :
  0 < mMonitoringIntervalStepUs m < 2 ^ 32 ->
  - 2 ^ 62 <= pNowMs <= 2 ^ 62 ->
  Forall int64 (intermediates m pNowMs).
Proof.
  intros HS Ht. unfold intermediates, time_point_cast_us, us, int64.
  set (S := mMonitoringIntervalStepUs m) in *.
  pose proof (quot_mul_bounds pNowMs 1000 ltac:(lia)) as Hc.
  set (t := Z.quot pNowMs 1000 * 1000) in *.
  pose proof (quot_mul_bounds (t + (S - 1) * 1000) (S * 1000) ltac:(lia)) as Hq.
  pose proof (quot_bounds (t + (S - 1) * 1000) (S * 1000) ltac:(lia)) as Hq'.
  set (q := Z.quot (t + (S - 1) * 1000) (S * 1000)) in *.
  assert (Z.abs (t + (S - 1) * 1000) < 2 ^ 63) by lia.
  assert (Z.abs (q * S) <= Z.abs (q * (S * 1000))) as Hqs.
  { rewrite Z.mul_assoc, (Z.abs_mul (q * S) 1000).
    pose proof (Z.abs_nonneg (q * S)). lia. }
  clearbody q t. repeat (constructor; [lia|]). constructor.
Qed.

(** ** The facade (C7, C10) *)

Lemma to_unsigned_trunc (d : float) :
  Double.unsigned_representable d = true ->
  Double.trunc d = Some (Double.to_unsigned d) /\
  0 <= Double.to_unsigned d < 2 ^ 32.
Proof.
  unfold Double.unsigned_representable, Double.to_unsigned.
  destruct (Double.trunc d) as [z|]; [|done].
  intros [H1 H2]%andb_prop. apply Z.leb_le in H1. apply Z.ltb_lt in H2.
  rewrite Z.mod_small by lia. split; [done | lia].
Qed.

(** *** Integers as doubles, and [std::round] against the exact value *)

Lemma digits2_pos_lower (m : positive) : 2 ^ (Z.pos (digits2_pos m) - 1) <= Z.pos m.
Proof.
  induction m as [m IH|m IH|]; cbn [digits2_pos].
  - rewrite Pos2Z.inj_succ. replace (Z.succ (Z.pos (digits2_pos m)) - 1) with (Z.succ (Z.pos (digits2_pos m) - 1)) by lia.
    rewrite Z.pow_succ_r by lia. lia.
  - rewrite Pos2Z.inj_succ. replace (Z.succ (Z.pos (digits2_pos m)) - 1) with (Z.succ (Z.pos (digits2_pos m) - 1)) by lia.
    rewrite Z.pow_succ_r by lia. lia.
  - reflexivity.
Qed.

Lemma digits2_pos_shift (p d : positive) :
  digits2_pos (Pos.iter xO p d) = (digits2_pos p + d)%positive.
Proof.
  induction d as [|d IH] using Pos.peano_ind.
  - cbn. lia.
  - rewrite Pos.iter_succ. cbn [digits2_pos]. rewrite IH. lia.
Qed.

Lemma iter_xO_value (p d : positive) : Z.pos (Pos.iter xO p d) = 2 ^ Z.pos d * Z.pos p.
Proof.
  change (Pos.iter xO p d) with (shift_pos d p). by rewrite shift_pos_correct.
Qed.

Lemma binary_normalize_small (p : positive) :
  Z.pos p < 2 ^ 52 ->
  exists d : positive,
    Z.pos d = 53 - Z.pos (digits2_pos p) /\
    binary_normalize prec emax (Z.pos p) 0 false
    = S754_finite false (Pos.iter xO p d) (- Z.pos d).
Proof.
  intros Hp.
  pose proof (digits2_pos_lower p) as Hlo.
  assert (Z.pos (digits2_pos p) <= 52) as Hdg.
  { destruct (Z_le_gt_dec (Z.pos (digits2_pos p)) 52) as [|Hgt]; [done|].
    assert (2 ^ 52 <= 2 ^ (Z.pos (digits2_pos p) - 1)) by (apply Z.pow_le_mono_r; lia). lia. }
  exists (Z.to_pos (53 - Z.pos (digits2_pos p))).
  assert (Z.pos (Z.to_pos (53 - Z.pos (digits2_pos p))) = 53 - Z.pos (digits2_pos p)) as Hd
    by (apply Z2Pos.id; lia).
  split; [done|].
  set (d := Z.to_pos (53 - Z.pos (digits2_pos p))) in *.
  cbn [binary_normalize]. unfold binary_round.
  assert (shl_align p 0 (fexp prec emax (Z.pos (digits2_pos p) + 0))
          = (Pos.iter xO p d, - Z.pos d)) as ->.
  { unfold shl_align, fexp, emin, prec, emax.
    replace (Z.max (Z.pos (digits2_pos p) + 0 - 53) (3 - 1024 - 53)) with (Z.neg d) by lia.
    cbn. f_equal. }
  unfold binary_round_aux.
  assert (forall l, l = loc_Exact ->
            shr_fexp prec emax (Z.pos (Pos.iter xO p d)) (- Z.pos d) l
            = ({| shr_m := Z.pos (Pos.iter xO p d); shr_r := false; shr_s := false |}, - Z.pos d)) as Hshr.
  { intros l ->. unfold shr_fexp, fexp, emin, prec, emax. cbn [Zdigits2].
    rewrite digits2_pos_shift.
    replace (Z.max (Z.pos (digits2_pos p + d) + - Z.pos d - 53) (3 - 1024 - 53) - - Z.pos d) with 0 by lia.
    reflexivity. }
  rewrite (Hshr loc_Exact eq_refl). cbn [shr_m loc_of_shr_record round_nearest_even].
  rewrite (Hshr loc_Exact eq_refl). cbn [shr_m].
  unfold prec, emax. destruct (Z.leb_spec (- Z.pos d) (1024 - 53)); [done | lia].
Qed.

Lemma trunc_of_Z (q : Z) : 0 <= q < 2 ^ 52 -> Double.trunc (Double.of_Z q) = Some q.
Proof.
  intros Hq. unfold Double.of_Z. destruct (Z.ltb_spec q 0) as [|_]; [lia|].
  unfold Double.trunc. rewrite of_uint63_spec.
  assert (Uint63Axioms.to_Z (Uint63.of_Z q) = q) as ->.
  { rewrite Uint63.of_Z_spec. apply Z.mod_small.
    assert (wB = 2 ^ 63) as -> by reflexivity. lia. }
  destruct q as [|p|p]; [done| |lia].
  destruct (binary_normalize_small p) as (d & Hd & ->); [lia|].
  destruct (Z.ltb_spec (- Z.pos d) 0) as [_|]; [|lia].
  f_equal. rewrite iter_xO_value, Z.opp_involutive.
  rewrite Z.mul_comm. apply Z.div_mul. lia.
Qed.

Lemma half_below (n num : Z) (D : positive) :
  (inject_Z n - Qmake 1 2 <= Qmake num D)%Q <-> (2 * n - 1) * Z.pos D <= 2 * num.
Proof. unfold Qle, Qminus, Qplus, Qopp, inject_Z. cbn. lia. Qed.

Lemma half_above (n num : Z) (D : positive) :
  (Qmake num D < inject_Z n + Qmake 1 2)%Q <-> 2 * num < (2 * n + 1) * Z.pos D.
Proof. unfold Qlt, Qplus, inject_Z. cbn. lia. Qed.

Lemma round_nearest (d : float) (x : Q) :
  double_value d = Some x ->
  (- Qmake 1 2 < x)%Q ->
  (x < inject_Z (2 ^ 32) - Qmake 1 2)%Q ->
  exists n : Z,
    Double.trunc (Double.round d) = Some n /\
    0 <= n < 2 ^ 32 /\
    (inject_Z n - Qmake 1 2 <= x)%Q /\
    (x < inject_Z n + Qmake 1 2)%Q.
Proof.
  unfold double_value, Double.round, Double.trunc.
  destruct (Prim2SF d) as [s|s| |s m e] eqn:E; try discriminate.
  - intros [= <-] _ _. rewrite E. exists 0. repeat split; try lia; done.
  - intros [= <-] Hlo Hhi.
    destruct (Z.ltb_spec e 0) as [He|He].
    + (* fractional part *)
      set (k := - e) in *.
      assert (0 < 2 ^ k) as Hk by (apply Z.pow_pos_nonneg; lia).
      assert (Z.pos (Z.to_pos (2 ^ k)) = 2 ^ k) as HD by (apply Z2Pos.id; lia).
      assert (2 ^ (1 - e) = 2 * 2 ^ k) as H2k.
      { replace (1 - e) with (Z.succ k) by lia. apply Z.pow_succ_r. lia. }
      unfold Qlt, Qminus, Qplus, Qopp, inject_Z in Hlo, Hhi. cbn in Hlo, Hhi.
      rewrite HD in Hlo, Hhi.
      set (q := (2 * Z.pos m + 2 ^ k) / 2 ^ (1 - e)).
      pose proof (Z.div_mod (2 * Z.pos m + 2 ^ k) (2 ^ (1 - e)) ltac:(lia)) as Hdm.
      pose proof (Z.mod_pos_bound (2 * Z.pos m + 2 ^ k) (2 ^ (1 - e)) ltac:(lia)) as Hmb.
      fold q in Hdm. rewrite H2k in Hdm, Hmb.
      destruct s.
      * (* negative: only values above -1/2 *)
        assert (q = 0) as Hq0 by (apply Z.div_small; lia).
        exists 0. rewrite Hq0.
        split; [reflexivity|]. split; [lia|].
        rewrite half_below, half_above, HD. lia.
      * assert (0 <= q) by (apply Z.div_pos; lia).
        assert (q < 2 ^ 32) by nia.
        exists q. split; [apply trunc_of_Z; lia|]. split; [lia|].
        rewrite half_below, half_above, HD. nia.
    + (* already integral *)
      rewrite E. destruct (Z.ltb_spec e 0) as [|_]; [lia|].
      assert (0 < 2 ^ e) by (apply Z.pow_pos_nonneg; lia).
      unfold Qlt, Qminus, Qplus, Qopp, inject_Z in Hlo, Hhi. cbn in Hlo, Hhi.
      destruct s; [nia|].
      exists (Z.pos m * 2 ^ e). split; [done|]. split; [nia|].
      unfold Qle, Qlt, Qminus, Qplus, Qopp, inject_Z. cbn. lia.
Qed.

(** C7, as stated, fails on intervals whose millisecond count does not
    fit the [unsigned] member: for 2^23 seconds the rounded count is
    8388608000, and no value of the member is within a half of it. *)
Lemma facade_set_interval_beyond_unsigned :
  ~ (forall (pInterval : float) (m : DataDistMonitoring.t) (x : Q),
       PrimFloat.leb pInterval Double.FLT_EPSILON = false ->
       double_value (pInterval * 1000) = Some x ->
       exists m' : DataDistMonitoring.t,
         DataDistMonitor.set_interval pInterval (Some m) = Some m' /\
         0 <= mMonitoringIntervalMs m' < 2 ^ 32 /\
         (inject_Z (mMonitoringIntervalMs m') - Qmake 1 2 <= x)%Q /\
         (x < inject_Z (mMonitoringIntervalMs m') + Qmake 1 2)%Q).
Proof.
  intros H.
  destruct (H 0x1p+23%float (init None) (Qmake 8796093022208000 1048576)) as (m' & _ & Hr & _ & Hlt).
  - reflexivity.
  - vm_compute. reflexivity.
  - unfold Qlt, Qplus, inject_Z in Hlt. cbn in Hlt. lia.
Qed.

(** C7, amended: with a pipeline in place, [DataDistMonitor::set_interval]
    on an interval at or below [epsilon()] clears the active flag and
    leaves the stored interval and step as they were. On any other
    interval whose product by 1000 (a double [x]) rounds to an
    [unsigned] value, that is [-1/2 < x < 2^32 - 1/2], the stored
    interval is the integer nearest to [x], the upper one when [x] is
    halfway, the step is recomputed from it and the active flag is left
    as it was. *)
Theorem facade_set_interval (pInterval : float) (m : DataDistMonitoring.t) :
  (PrimFloat.leb pInterval Double.FLT_EPSILON = true ->
   exists m' : DataDistMonitoring.t,
     DataDistMonitor.set_interval pInterval (Some m) = Some m' /\
     mActive m' = false /\
     mMonitoringIntervalMs m' = mMonitoringIntervalMs m /\
     mMonitoringIntervalStepUs m' = mMonitoringIntervalStepUs m) /\
  (PrimFloat.leb pInterval Double.FLT_EPSILON = false ->
   forall x : Q,
     double_value (pInterval * 1000) = Some x ->
     (- Qmake 1 2 < x)%Q ->
     (x < inject_Z (2 ^ 32) - Qmake 1 2)%Q ->
     exists m' : DataDistMonitoring.t,
       DataDistMonitor.set_interval pInterval (Some m) = Some m' /\
       0 <= mMonitoringIntervalMs m' < 2 ^ 32 /\
       (inject_Z (mMonitoringIntervalMs m') - Qmake 1 2 <= x)%Q /\
       (x < inject_Z (mMonitoringIntervalMs m') + Qmake 1 2)%Q /\
       mMonitoringIntervalStepUs m' = step_us (mMonitoringIntervalMs m') /\
       mActive m' = mActive m).
Proof.
  unfold DataDistMonitor.set_interval, DataDistMonitor.with_mon. split.
  - intros ->. eexists. split; [reflexivity|]. done.
  - intros -> x Hx Hlo Hhi.
    destruct (round_nearest _ x Hx Hlo Hhi) as (n & Hn & Hrange & Hle & Hlt).
    eexists. split; [reflexivity|]. cbn.
    unfold DataDistMonitor.interval_ms, Double.to_unsigned. rewrite Hn.
    rewrite Z.mod_small by lia. done.
Qed.

Lemma facade_set_interval_witness :
  (exists m' : DataDistMonitoring.t,
     DataDistMonitor.set_interval 0 (Some (set_active true (init None))) = Some m' /\
     mActive m' = false /\
     mMonitoringIntervalMs m' = 1000 /\
     mMonitoringIntervalStepUs m' = 500000) /\
  (exists m' : DataDistMonitoring.t,
     DataDistMonitor.set_interval 0x1.4p+1 (Some (set_active true (init None))) = Some m' /\
     0 <= mMonitoringIntervalMs m' < 2 ^ 32 /\
     (inject_Z (mMonitoringIntervalMs m') - Qmake 1 2
        <= Qmake 5497558138880000 2199023255552)%Q /\
     (Qmake 5497558138880000 2199023255552
        < inject_Z (mMonitoringIntervalMs m') + Qmake 1 2)%Q /\
     mMonitoringIntervalStepUs m' = step_us (mMonitoringIntervalMs m') /\
     mActive m' = true).
Proof.
  split.
  - apply (facade_set_interval 0 (set_active true (init None))). reflexivity.
  - apply (facade_set_interval 0x1.4p+1 (set_active true (init None))).
    + reflexivity.
    + vm_compute. reflexivity.
    + reflexivity.
    + reflexivity.
Defined.

(** What the facade does on the default interval of two seconds, on half
    a second, on [epsilon()] itself and on a negative interval. *)
Lemma facade_set_interval_examples :
  DataDistMonitor.set_interval 2 (Some (init None))
    = Some (set_interval 2000 (init None)) /\
  DataDistMonitor.set_interval 0x1p-1 (Some (init None))
    = Some (set_interval 500 (init None)) /\
  DataDistMonitor.set_interval Double.FLT_EPSILON (Some (set_active true (init None)))
    = Some (init None) /\
  DataDistMonitor.set_interval (-1) (Some (set_active true (init None)))
    = Some (init None) /\
  DataDistMonitor.set_interval 2 None = None.
Proof. vm_compute. repeat split; reflexivity. Qed.

(** The threshold keeps out intervals up to [epsilon()] only: a quarter
    of a millisecond is above it and is stored as an interval of 0 ms,
    with the step at its floor of 250 ms. *)
Lemma facade_set_interval_zero_ms :
  PrimFloat.leb 0x1p-12 Double.FLT_EPSILON = false /\
  DataDistMonitor.set_interval 0x1p-12 (Some (init None))
    = Some (set_interval 0 (init None)) /\
  mMonitoringIntervalStepUs (set_interval 0 (init None)) = 250000.
Proof. vm_compute. repeat split; reflexivity. Qed.

(** A NaN is not at or below [epsilon()], and its rounded millisecond
    count is no [unsigned] value: the second case of [facade_set_interval]
    does not cover it, nor intervals above 2^32 ms. *)
Lemma facade_set_interval_nan :
  PrimFloat.leb nan Double.FLT_EPSILON = false /\
  Double.unsigned_representable (DataDistMonitor.interval_ms nan) = false /\
  Double.unsigned_representable (DataDistMonitor.interval_ms 0x1p+23) = false.
Proof. vm_compute. repeat split; reflexivity. Qed.

(** C10: with a pipeline in place, [enable_datadist] forwards the run
    number [max(pRunNum, 1)], which is at least 1 whatever [pRunNum] is
    (1 for a run number of 0), then the partition tag, and sets the
    active flag. The backend, when there is one, has received exactly
    these two calls more, in this order. *)
Theorem enable_datadist_run_number
    (pRunNum : Z) (pPartId : string) (m : DataDistMonitoring.t) :
  exists m' : DataDistMonitoring.t,
    DataDistMonitor.enable_datadist pRunNum pPartId (Some m) = Some m' /\
    m' = set_active true
           (set_partition_id pPartId (set_run_number (Z.max pRunNum 1) m)) /\
    1 <= Z.max pRunNum 1 /\
    Z.max 0 1 = 1 /\
    mActive m' = true /\
    mO2Monitoring m' =
      ((fun calls => calls ++ [SetRunNumber (Z.max pRunNum 1);
                               AddGlobalTag "partition" pPartId]) <$> mO2Monitoring m) /\
    mMetricsQueue m' = mMetricsQueue m /\
    mRateMetricsQueue m' = mRateMetricsQueue m /\
    mMonitoringIntervalMs m' = mMonitoringIntervalMs m /\
    mMonitoringIntervalStepUs m' = mMonitoringIntervalStepUs m /\
    mLogMetric m' = mLogMetric m.
Proof.
  eexists. split; [reflexivity|]. split; [reflexivity|]. split; [lia|].
  split; [reflexivity|]. split; [reflexivity|].
  unfold set_active, set_partition_id, set_run_number, forward. cbn.
  destruct (mO2Monitoring m) as [calls|] eqn:E; cbn; rewrite ?E; cbn.
  - rewrite <- app_assoc. done.
  - done.
Qed.

(** Without a pipeline the facade does nothing. *)
Lemma enable_datadist_without_pipeline (pRunNum : Z) (pPartId : string) :
  DataDistMonitor.enable_datadist pRunNum pPartId None = None.
Proof. reflexivity. Qed.

(** * Further properties of the header *)

(** ** The window rounder on every instant *)

Lemma time_point_cast_us_mono (t1 t2 : Z) :
  t1 <= t2 -> time_point_cast_us t1 <= time_point_cast_us t2.
Proof.
  intros H. unfold time_point_cast_us, us.
  pose proof (Z.quot_le_mono t1 t2 1000 ltac:(lia) H). lia.
Qed.

(** A later instant never rounds to an earlier boundary: [roundTimeNow]
    is monotone on all instants, whatever their precision and sign. *)
Theorem roundTimeNow_monotone (m : DataDistMonitoring.t) (t1 t2 : Z) :
  0 < mMonitoringIntervalStepUs m ->
  t1 <= t2 ->
  roundTimeNow m t1 <= roundTimeNow m t2.
Proof.
  intros HS H. unfold roundTimeNow.
  pose proof (time_point_cast_us_mono t1 t2 H) as Hc.
  set (S := mMonitoringIntervalStepUs m) in *.
  assert (Z.quot (time_point_cast_us t1 + us (S - 1)) (us S)
          <= Z.quot (time_point_cast_us t2 + us (S - 1)) (us S)) as Hq.
  { apply Z.quot_le_mono; unfold us; lia. }
  unfold us in *. nia.
Qed.

Lemma roundTimeNow_monotone_witness :
  roundTimeNow (init None) (ms 1999) <= roundTimeNow (init None) (ms 2001).
Proof.
  apply (roundTimeNow_monotone (init None) (ms 1999) (ms 2001)); [reflexivity|].
  unfold ms. lia.
Defined.

(** The windows are half-open on the left: every instant of whole
    microseconds in [(k*S, (k+1)*S]], [k >= 0], rounds to [(k+1)*S]. *)
Theorem roundTimeNow_window (m : DataDistMonitoring.t) (k t_us : Z) :
  0 < mMonitoringIntervalStepUs m ->
  0 <= k ->
  k * mMonitoringIntervalStepUs m < t_us <= (k + 1) * mMonitoringIntervalStepUs m ->
  roundTimeNow m (us t_us) = us ((k + 1) * mMonitoringIntervalStepUs m).
Proof.
  intros HS Hk Ht. rewrite roundTimeNow_us by done.
  set (S := mMonitoringIntervalStepUs m) in *.
  rewrite Z.quot_div_nonneg by nia.
  assert ((t_us + (S - 1)) / S = k + 1) as ->; [|done].
  symmetry. apply (Z.div_unique _ _ _ (t_us + (S - 1) - (k + 1) * S)); nia.
Qed.

Lemma roundTimeNow_window_witness :
  roundTimeNow (init None) (us 2000001) = us ((4 + 1) * 500000).
Proof.
  apply (roundTimeNow_window (init None) 4 2000001); [reflexivity | lia | simpl; lia].
Defined.

(** Rounding is idempotent from the epoch on: a rounded instant rounds
    to itself. *)
Theorem roundTimeNow_idempotent (m : DataDistMonitoring.t) (pNowMs : Z) :
  0 < mMonitoringIntervalStepUs m ->
  0 <= pNowMs ->
  roundTimeNow m (roundTimeNow m pNowMs) = roundTimeNow m pNowMs.
Proof.
  intros HS Ht. unfold roundTimeNow at 2.
  set (S := mMonitoringIntervalStepUs m) in *.
  set (q := Z.quot (time_point_cast_us pNowMs + us (S - 1)) (us S)).
  assert (0 <= q) as Hq.
  { apply Z.quot_pos; unfold time_point_cast_us, us.
    - pose proof (Z.quot_pos pNowMs 1000 Ht ltac:(lia)). nia.
    - lia. }
  rewrite roundTimeNow_us by done. fold S.
  rewrite Z.quot_div_nonneg by nia.
  replace (q * S + (S - 1)) with ((S - 1) + q * S) by lia.
  rewrite Z.div_add by lia. rewrite Z.div_small by lia. done.
Qed.

Lemma roundTimeNow_idempotent_witness :
  roundTimeNow (init None) (roundTimeNow (init None) (ms 2001))
  = roundTimeNow (init None) (ms 2001).
Proof.
  apply (roundTimeNow_idempotent (init None) (ms 2001)); [reflexivity|].
  unfold ms. lia.
Defined.

(** From the epoch on the rounded instant is less than one step after
    the instant. *)
Theorem roundTimeNow_within_one_step (m : DataDistMonitoring.t) (pNowMs : Z) :
  0 < mMonitoringIntervalStepUs m ->
  0 <= pNowMs ->
  roundTimeNow m pNowMs < pNowMs + us (mMonitoringIntervalStepUs m).
Proof.
  intros HS Ht. unfold roundTimeNow, time_point_cast_us, us.
  set (S := mMonitoringIntervalStepUs m) in *.
  pose proof (Z.quot_pos pNowMs 1000 Ht ltac:(lia)) as Hc0.
  pose proof (Z.mul_quot_le pNowMs 1000 Ht ltac:(lia)) as Hc.
  set (c := Z.quot pNowMs 1000) in *.
  rewrite <- Z.mul_add_distr_r, Z.quot_mul_cancel_r by lia.
  pose proof (Z.mul_quot_le (c + (S - 1)) S ltac:(lia) ltac:(lia)). lia.
Qed.

Lemma roundTimeNow_within_one_step_witness :
  roundTimeNow (init None) (ms 2001) < ms 2001 + us 500000.
Proof.
  apply (roundTimeNow_within_one_step (init None) (ms 2001)); [reflexivity|].
  unfold ms. lia.
Defined.

(** An instant with a sub-microsecond part may round to a boundary
    before it, but by less than a microsecond (1000 ticks). *)
Theorem roundTimeNow_early_by_less_than_1us (m : DataDistMonitoring.t) (pNowMs : Z) :
  0 < mMonitoringIntervalStepUs m ->
  pNowMs - 1000 < roundTimeNow m pNowMs.
Proof.
  intros HS. unfold roundTimeNow.
  set (S := mMonitoringIntervalStepUs m) in *.
  assert (pNowMs - 1000 < time_point_cast_us pNowMs) as Hc.
  { unfold time_point_cast_us, us.
    pose proof (Z.quot_rem' pNowMs 1000).
    pose proof (Z.rem_bound_abs pNowMs 1000 ltac:(lia)). lia. }
  assert (exists c, time_point_cast_us pNowMs = us c) as [c Hcc].
  { by eexists. }
  rewrite Hcc in *. unfold us in *.
  rewrite <- Z.mul_add_distr_r, Z.quot_mul_cancel_r by lia.
  pose proof (quot_round_up c S HS). lia.
Qed.

Lemma roundTimeNow_early_by_less_than_1us_witness :
  ms 2000 + 1 - 1000 < roundTimeNow (init None) (ms 2000 + 1).
Proof.
  apply (roundTimeNow_early_by_less_than_1us (init None) (ms 2000 + 1)). reflexivity.
Defined.

(** Every rounded instant is a whole number of steps from the epoch, so
    processes with the same step report on the same grid. *)
Theorem roundTimeNow_aligned (m : DataDistMonitoring.t) (pNowMs : Z) :
  0 < mMonitoringIntervalStepUs m ->
  roundTimeNow m pNowMs mod us (mMonitoringIntervalStepUs m) = 0.
Proof.
  intros HS. unfold roundTimeNow, us. rewrite <- Z.mul_assoc. apply Z.mod_mul. lia.
Qed.

Lemma roundTimeNow_aligned_witness :
  roundTimeNow (init None) (ms 2001 + 7) mod us 500000 = 0.
Proof.
  apply (roundTimeNow_aligned (init None) (ms 2001 + 7)). reflexivity.
Defined.

(** The 64-bit counts of [roundTimeNow] do not overflow for a step below
    2^32 us and an instant within 2^62 ticks of the epoch. *)
Theorem roundTimeNow_no_overflow (m : DataDistMonitoring.t) (pNowMs : Z) :
  0 < mMonitoringIntervalStepUs m < 2 ^ 32 ->
  - 2 ^ 62 <= pNowMs <= 2 ^ 62 ->
  Forall int64 (intermediates m pNowMs) /\
  last (intermediates m pNowMs) = Some (roundTimeNow m pNowMs).
Proof.
  intros HS Ht. split; [by apply roundTimeNow_fits_int64 | reflexivity].
Qed.

Lemma roundTimeNow_no_overflow_witness :
  Forall int64 (intermediates (init None) (ms 2001)) /\
  last (intermediates (init None) (ms 2001)) = Some (roundTimeNow (init None) (ms 2001)).
Proof.
  apply (roundTimeNow_no_overflow (init None) (ms 2001)).
  - split; reflexivity.
  - unfold ms. lia.
Defined.

(** ** The stored step *)

(** Whatever interval is set, the stored step is below 2^32 us (about
    71.6 minutes) and a multiple of 8 us: it is a 32-bit product by
    1000. *)
Theorem set_interval_step_below_2_32 (pIntMs : Z) (m : DataDistMonitoring.t) :
  0 <= mMonitoringIntervalStepUs (set_interval pIntMs m) < 2 ^ 32 /\
  mMonitoringIntervalStepUs (set_interval pIntMs m) mod 8 = 0 /\
  mMonitoringIntervalMs (set_interval pIntMs m) = pIntMs.
Proof.
  cbn [set_interval mMonitoringIntervalStepUs mMonitoringIntervalMs].
  unfold step_us. split; [apply Z.mod_pos_bound; lia|]. split; [|done].
  set (k := Z.max 250 (interval_steps pIntMs)).
  replace (k * 1000) with (k * 125 * 8) by lia.
  replace (2 ^ 32) with (2 ^ 29 * 8) by reflexivity.
  rewrite Z.mul_mod_distr_r by lia. apply Z.mod_mul. lia.
Qed.

Lemma all_from_spec (p : Z -> bool) (n : nat) : forall i : Z,
  all_from n i p = true ->
  forall j : Z, i <= j < i + Z.of_nat n -> p j = true.
Proof.
  induction n as [|n IH]; intros i H j Hj; [lia|].
  cbn [all_from] in H. apply andb_prop in H as [Hi Hn].
  destruct (decide (j = i)) as [->|Hne]; [done|].
  apply (IH (i + 1) Hn). lia.
Qed.

(** The double pipeline of [set_interval], evaluated on each interval
    from 0 ms to one minute. *)
Lemma step_us_up_to_a_minute :
  all_from (Z.to_nat 60001) 0 (fun I => step_us I =? spec_step_us I) = true.
Proof. vm_cast_no_check (eq_refl true). Qed.

(** For every interval from 0 ms to 60000 ms the stored step is
    [max(250, 500 * (I / 2000)) * 1000] us, with [/] the integer
    quotient; it is never under 250 ms. *)
Theorem set_interval_step_formula (pIntMs : Z) (m : DataDistMonitoring.t) :
  0 <= pIntMs <= 60000 ->
  mMonitoringIntervalStepUs (set_interval pIntMs m)
    = Z.max 250 (500 * (pIntMs / 2000)) * 1000 /\
  250000 <= mMonitoringIntervalStepUs (set_interval pIntMs m).
Proof.
  intros HI. cbn [set_interval mMonitoringIntervalStepUs].
  assert (step_us pIntMs = spec_step_us pIntMs) as ->.
  { apply Z.eqb_eq.
    apply (all_from_spec _ _ _ step_us_up_to_a_minute pIntMs). lia. }
  unfold spec_step_us. split; [reflexivity | lia].
Qed.

Lemma set_interval_step_formula_witness :
  mMonitoringIntervalStepUs (set_interval 5000 (init None))
    = Z.max 250 (500 * (5000 / 2000)) * 1000 /\
  250000 <= mMonitoringIntervalStepUs (set_interval 5000 (init None)).
Proof.
  apply (set_interval_step_formula 5000 (init None)). lia.
Defined.

(** [set_interval] followed by [roundTimeNow]: for an interval of at
    most a minute and an instant of whole microseconds from the epoch on,
    the rounded instant is the ceiling of the instant on the grid of
    [max(250, 500 * (I / 2000))] ms. *)
Theorem set_interval_then_round (pIntMs t_us : Z) (m : DataDistMonitoring.t) :
  0 <= pIntMs <= 60000 -> 0 <= t_us ->
  roundTimeNow (set_interval pIntMs m) (us t_us)
    = us (ceilDiv t_us (spec_step_us pIntMs) * spec_step_us pIntMs).
Proof.
  intros HI Ht.
  destruct (set_interval_step_formula pIntMs m HI) as [Hs Hpos].
  rewrite roundTimeNow_us by lia. rewrite quot_ceilDiv by lia.
  rewrite Hs. done.
Qed.

Lemma set_interval_then_round_witness :
  roundTimeNow (set_interval 5000 (init None)) (us 2000001)
    = us (ceilDiv 2000001 (spec_step_us 5000) * spec_step_us 5000).
Proof.
  apply (set_interval_then_round 5000 2000001 (init None)); lia.
Defined.

(** ** Producer calls and settings *)

(** Plain and rate pushes do not interfere: in either order they leave
    the same object, on the pipeline and through the macros (with or
    without a pipeline). *)
Theorem push_push_rate_commute
    (m : DataDistMonitoring.t) (s : DataDistMonitor.t)
    (n1 k1 n2 k2 : string) (v1 v2 : float) :
  push n1 k1 v1 (push_rate n2 k2 v2 m) = push_rate n2 k2 v2 (push n1 k1 v1 m) /\
  DDMON n1 k1 v1 (DDMON_RATE n2 k2 v2 s) = DDMON_RATE n2 k2 v2 (DDMON n1 k1 v1 s).
Proof.
  assert (forall m, push n1 k1 v1 (push_rate n2 k2 v2 m)
                    = push_rate n2 k2 v2 (push n1 k1 v1 m)) as H.
  { clear. intros m. unfold push, push_rate, enabled. cbn.
    destruct (mLogMetric m || bool_decide (is_Some (mO2Monitoring m))) eqn:E;
      cbn; rewrite ?E; done. }
  split; [done|]. destruct s as [m'|]; cbn; [|done]. by rewrite H.
Qed.

(** A push commutes with [set_interval] and [set_active]: neither the
    interval nor the active flag decides whether or what it enqueues. *)
Theorem push_commutes_with_settings
    (m : DataDistMonitoring.t) (name key : string) (v : float) (b : bool) (pIntMs : Z) :
  push name key v (set_interval pIntMs m) = set_interval pIntMs (push name key v m) /\
  push_rate name key v (set_interval pIntMs m) = set_interval pIntMs (push_rate name key v m) /\
  push name key v (set_active b m) = set_active b (push name key v m) /\
  push_rate name key v (set_active b m) = set_active b (push_rate name key v m).
Proof.
  unfold push, push_rate, set_interval, set_active, enabled. cbn.
  by destruct (mLogMetric m || bool_decide (is_Some (mO2Monitoring m))).
Qed.

(** [set_log] is the switch of the producers: after [set_log(true)] every
    push goes to [push_capacity] with the bound 4096, whatever the active
    flag and the backend; after [set_log(false)] on a pipeline without a
    backend no push changes anything. *)
Theorem set_log_switches_push (m : DataDistMonitoring.t) (name key : string) (v : float) :
  mMetricsQueue (push name key v (set_log true m))
    = push_capacity 4096 (name, key, v) (mMetricsQueue m) /\
  mRateMetricsQueue (push_rate name key v (set_log true m))
    = push_capacity 4096 (name, key, v) (mRateMetricsQueue m) /\
  (mO2Monitoring m = None ->
   push name key v (set_log false m) = set_log false m /\
   push_rate name key v (set_log false m) = set_log false m).
Proof.
  split; [done|]. split; [done|].
  intros H. unfold push, push_rate, enabled. cbn. by rewrite H.
Qed.

Lemma set_log_switches_push_witness :
  push "m" "k" 1 (set_log false (set_log true (init None))) = set_log false (set_log true (init None)) /\
  push_rate "m" "k" 1 (set_log false (set_log true (init None)))
    = set_log false (set_log true (init None)).
Proof.
  apply (set_log_switches_push (set_log true (init None)) "m" "k" 1%float). reflexivity.
Defined.

(** ** The facade *)

(** Pausing and resuming: an interval at or below [epsilon()] followed by
    [enable_datadist] gives an active pipeline with the interval, the
    step and the queues it had before the pause. *)
Theorem pause_then_resume
    (m : DataDistMonitoring.t) (pInterval : float) (pRunNum : Z) (pPartId : string) :
  PrimFloat.leb pInterval Double.FLT_EPSILON = true ->
  exists m' : DataDistMonitoring.t,
    DataDistMonitor.enable_datadist pRunNum pPartId
      (DataDistMonitor.set_interval pInterval (Some m)) = Some m' /\
    mActive m' = true /\
    mMonitoringIntervalMs m' = mMonitoringIntervalMs m /\
    mMonitoringIntervalStepUs m' = mMonitoringIntervalStepUs m /\
    mMetricsQueue m' = mMetricsQueue m /\
    mRateMetricsQueue m' = mRateMetricsQueue m.
Proof.
  intros H. unfold DataDistMonitor.set_interval, DataDistMonitor.enable_datadist,
    DataDistMonitor.with_mon. rewrite H.
  eexists. split; [reflexivity|].
  unfold set_active, set_partition_id, set_run_number, forward. cbn.
  destruct (mO2Monitoring m); cbn; done.
Qed.

Lemma pause_then_resume_witness :
  exists m' : DataDistMonitoring.t,
    DataDistMonitor.enable_datadist 3 "p"
      (DataDistMonitor.set_interval 0 (Some (set_interval 5000 (init None)))) = Some m' /\
    mActive m' = true /\
    mMonitoringIntervalMs m' = mMonitoringIntervalMs (set_interval 5000 (init None)) /\
    mMonitoringIntervalStepUs m' = mMonitoringIntervalStepUs (set_interval 5000 (init None)) /\
    mMetricsQueue m' = mMetricsQueue (set_interval 5000 (init None)) /\
    mRateMetricsQueue m' = mRateMetricsQueue (set_interval 5000 (init None)).
Proof.
  apply (pause_then_resume (set_interval 5000 (init None)) 0 3 "p"). reflexivity.
Defined.

(** ** The initial record *)

(** The initial [mMin] is an upper bound of every double below [+inf]:
    no finite sample is above it. The initial [mMax] is no lower bound:
    zero and every negative double are below it. *)
Theorem initial_sentinels (v : float) :
  (PrimFloat.ltb v infinity = true -> double_le v (mMin RateVals_init)) /\
  (PrimFloat.leb v 0 = true -> PrimFloat.ltb v (mMax RateVals_init) = true).
Proof.
  split.
  - intros Hlt. apply ltb_key in Hlt as (Hv & _ & Hlt).
    apply finite_le_DBL_MAX; [done|].
    intros Heq. unfold fkey, lex_lt in Hlt. rewrite Heq in Hlt.
    change (Prim2SF infinity) with (S754_infinity false) in Hlt. cbn in Hlt. lia.
  - intros Hle. apply leb_key in Hle as (Hv & H0 & Hle).
    apply ltb_key. split; [done|]. split; [apply init_max_num|].
    change (fkey 0) with ((0, 0, 0) : Z * Z * Z) in Hle.
    change (fkey (mMax RateVals_init)) with ((1, -1074, 4503599627370496) : Z * Z * Z).
    unfold lex_lt in *. destruct (fkey v) as [[a b] c]. cbn in *.
    destruct Hle as [Hle | Heq]; [|injection Heq as -> -> ->; lia].
    lia.
Qed.

Lemma initial_sentinels_witness :
  double_le 5 (mMin RateVals_init) /\
  PrimFloat.ltb (-1) (mMax RateVals_init) = true.
Proof.
  split.
  - apply (initial_sentinels 5). reflexivity.
  - apply (initial_sentinels (-1)). reflexivity.
Defined.
